(** * dynamic-dns-go: the zone engine, embedded and verified

    A shallow embedding of the record key codec ([record/record.go]), the
    update pad ([record/pad.go]) and the per-zone request handler (package
    [zone]) of [github.com/yseto/dynamic-dns-go], followed by theorems about
    the update transaction engine and the query resolver.

    The record table is a Go [map[string][]string]; it is a [gmap] from
    strings to lists of strings here.  The functions of the external library
    [github.com/miekg/dns] that the program calls are collected in the class
    [DNSLibrary]; general theorems hold for every implementation of it, and
    the instance [miekg] is used to run the code on concrete records. *)

From Stdlib Require Import ZArith Ascii String DecimalString.
From stdpp Require Import gmap strings list fin_maps.

Local Open Scope string_scope.
Local Open Scope Z_scope.

(** ** Go standard library: [strings] and [slices] *)

(** [strings.HasPrefix(s, prefix)]. *)
Definition HasPrefix (s prefix : string) : bool := String.prefix prefix s.

(** [strings.HasSuffix(s, suffix)]:
    [len(s) >= len(suffix) && s[len(s)-len(suffix):] == suffix]. *)
Definition HasSuffix (s suffix : string) : bool :=
  (String.length suffix <=? String.length s)%nat &&
  String.eqb
    (String.substring (String.length s - String.length suffix)
                      (String.length suffix) s)
    suffix.

(** [strings.ToLower] on the ASCII range, which is where DNS presentation
    strings live (the library escapes every other byte as [\DDD]). *)
Definition lower_ascii (c : ascii) : ascii :=
  let n := nat_of_ascii c in
  if (65 <=? n)%nat && (n <=? 90)%nat then ascii_of_nat (n + 32) else c.

Fixpoint ToLower (s : string) : string :=
  match s with
  | EmptyString => EmptyString
  | String c r => String (lower_ascii c) (ToLower r)
  end.

(** [strings.Join(elems, sep)]. *)
Definition Join (elems : list string) (sep : string) : string :=
  String.concat sep elems.

(** [slices.Contains] on a slice of strings. *)
Definition Contains (l : list string) (x : string) : bool :=
  existsb (String.eqb x) l.

(** ** Constants of [github.com/miekg/dns] *)

Definition TypeA : Z := 1.
Definition TypeNS : Z := 2.
Definition TypeCNAME : Z := 5.
Definition TypeSOA : Z := 6.
Definition TypeTSIG : Z := 250.
Definition TypeAXFR : Z := 252.
Definition TypeANY : Z := 255.

Definition ClassINET : Z := 1.
Definition ClassNONE : Z := 254.
Definition ClassANY : Z := 255.

Definition OpcodeQuery : Z := 0.
Definition OpcodeUpdate : Z := 5.

Definition RcodeSuccess : Z := 0.
Definition RcodeRefused : Z := 5.
Definition RcodeNotAuth : Z := 9.

(** [dns.RR_Header]; the field [Class] is spelled [RClass]. *)
Record RR_Header := mkHeader {
  Name : string;
  Rrtype : Z;
  RClass : Z;
  Ttl : Z;
  Rdlength : Z
}.

(** A resource record: the header every [dns.RR] carries, and the fields
    that depend on the record type. *)
Record RRof (RData : Type) := mkRR {
  Hdr : RR_Header;
  Body : RData
}.
Arguments mkRR {RData} _ _.
Arguments Hdr {RData} _.
Arguments Body {RData} _.

(** What the program uses of the library.  [NewRR] is [None] when the
    library reports an error; [TSIG_Body algo fudge timesigned origId] is
    the record data of the TSIG record that [Msg.SetTsig] makes. *)
Class DNSLibrary := {
  RData : Type;
  IsDomainName : string → bool;
  SplitDomainName : string → list string;
  Type_String : Z → string;
  RR_String : RRof RData → string;
  NewRR : string → option (RRof RData);
  CNAME_Target : RRof RData → string;
  TSIG_Body : string → Z → Z → Z → RData
}.

Abbreviation RR := (RRof RData).

(** The errors the program creates or passes on. *)
Inductive Error :=
| errCNAMERecordIsExist
| errRecordsIsExist
| errInvalidDomain (domain : string)
| errRecordNotFound (name : string) (qtype : Z)
| errNewRR (s : string).

(** The spec's [ConflictExists] covers both errors of [storeRecord]. *)
Definition ConflictExists (e : Error) : Prop :=
  e = errCNAMERecordIsExist ∨ e = errRecordsIsExist.

Abbreviation Table := (gmap string (list string)).

(** ** The pad monad: a table mutated in place, and Go's [error] results.

    An error leaves the table as the statements before it made it: nothing
    is rolled back. *)
Definition PadM (A : Type) : Type := Table → (Error + A) * Table.

Definition ret {A} (a : A) : PadM A := λ s, (inr a, s).
Definition throw {A} (e : Error) : PadM A := λ s, (inl e, s).
Definition bind {A B} (c : PadM A) (k : A → PadM B) : PadM B :=
  λ s, match c s with
       | (inl e, s') => (inl e, s')
       | (inr a, s') => k a s'
       end.
Definition get : PadM Table := λ s, (inr s, s).
Definition put (t : Table) : PadM unit := λ _, (inr tt, t).

Declare Scope pad_scope.
Delimit Scope pad_scope with pad.
Notation "'do' x <- c ; k" := (bind c (λ x, k))
  (at level 10, x name, c at level 100, k at level 200) : pad_scope.
Notation "'run' c ; k" := (bind c (λ _, k))
  (at level 10, c at level 100, k at level 200) : pad_scope.

(** The error a pad operation returned, [None] for Go's [nil]. *)
Definition err_of {A} (r : (Error + A) * Table) : option Error :=
  match r.1 with inl e => Some e | inr _ => None end.

Section Record.
Context `{DNSLibrary}.

(** ** [record/record.go] *)

Definition GetKeyDomain (domain : string) : Error + string :=
  if negb (IsDomainName domain) then inl (errInvalidDomain domain)
  else
    let labels := SplitDomainName domain in
    let labels := rev labels in
    inr (ToLower (Join labels ".")).

Definition GetKey (domain : string) (rtype : Z) : Error + string :=
  match GetKeyDomain domain with
  | inl err => inl err
  | inr reverse_domain => inr (Join [reverse_domain; Type_String rtype] "_")
  end.

(** ** [record/pad.go] *)

(** Deleting while ranging over a Go map visits every remaining key once,
    so the loop keeps exactly the keys without the prefix. *)
Definition deleteRecords (domain : string) : PadM unit :=
  match GetKeyDomain domain with
  | inl err => throw err
  | inr prefix =>
    (do s <- get;
     put (filter (λ kv, HasPrefix kv.1 prefix = false) s))%pad
  end.

Definition deleteRecord (domain : string) (rtype : Z) : PadM unit :=
  if rtype =? TypeANY then deleteRecords domain
  else
    match GetKey domain rtype with
    | inl err => throw err
    | inr key => (do s <- get; put (delete key s))%pad
    end.

Definition hasRecords (domain : string) : PadM bool :=
  match GetKeyDomain domain with
  | inl err => throw err
  | inr prefix =>
    (do s <- get;
     ret (existsb (λ key, HasPrefix key prefix) (map_to_list s).*1))%pad
  end.

Definition storeRecord (rr : RR) : PadM unit :=
  (run (if Rrtype (Hdr rr) =? TypeCNAME then
          (do exist <- hasRecords (Name (Hdr rr));
           if exist : bool then throw errRecordsIsExist else ret tt)
        else ret tt);
   match GetKey (Name (Hdr rr)) TypeCNAME with
   | inl _ => ret tt
   | inr key =>
     do s <- get;
     match s !! key with
     | Some _ => throw errCNAMERecordIsExist
     | None =>
       match GetKey (Name (Hdr rr)) (Rrtype (Hdr rr)) with
       | inl err => throw err
       | inr key =>
         if Contains (s !!! key) (RR_String rr) then ret tt
         else put (<[key := ((s !!! key) ++ [RR_String rr])%list]> s)
       end
     end
   end)%pad.

(** [tmp.Header().Ttl = 0; tmp.Header().Class = dns.ClassNONE]. *)
Definition forceDeleteHeader (tmp : RR) : RR :=
  mkRR (mkHeader (Name (Hdr tmp)) (Rrtype (Hdr tmp)) ClassNONE 0
                 (Rdlength (Hdr tmp)))
       (Body tmp).

(** The comparison of [omitRecord], on an already restored record. *)
Definition omitSame (rr tmp : RR) : bool :=
  String.eqb (ToLower (RR_String (forceDeleteHeader tmp)))
             (ToLower (RR_String rr)).

(** The loop of [omitRecord] over [values], with its accumulator. *)
Fixpoint omitLoop (rr : RR) (values newRWRecords : list string)
  : Error + list string :=
  match values with
  | [] => inr newRWRecords
  | v :: values =>
    match NewRR v with
    | None => inl (errNewRR v)
    | Some tmp =>
      if omitSame rr tmp then omitLoop rr values newRWRecords
      else omitLoop rr values (newRWRecords ++ [v])%list
    end
  end.

Definition omitRecord (rr : RR) : PadM unit :=
  match GetKey (Name (Hdr rr)) (Rrtype (Hdr rr)) with
  | inl _ => ret tt
  | inr key =>
    (do s <- get;
     match s !! key with
     | None => ret tt
     | Some values =>
       match omitLoop rr values [] with
       | inl err => throw err
       | inr newRWRecords => put (<[key := newRWRecords]> s)
       end
     end)%pad
  end.

(** [dns.Question]. *)
Record Question := mkQuestion {
  QName : string;
  Qtype : Z;
  Qclass : Z
}.

Definition UpdateRecord (r : RR) (q : Question) : PadM unit :=
  let header := Hdr r in
  if IsDomainName (Name header) then
    if RClass header =? ClassANY then
      if Rdlength header =? 0 then deleteRecord (Name header) (Rrtype header)
      else ret tt
    else if RClass header =? ClassNONE then
      if Ttl header =? 0 then omitRecord r else ret tt
    else if RClass header =? ClassINET then storeRecord r
    else ret tt
  else ret tt.

End Record.

(** ** Package [zone] *)

(** A Go map value is a reference: two variables holding the same map see
    each other's writes.  The maps the program has allocated live in a heap,
    and a variable of map type holds a location. *)
Abbreviation loc := positive.
Abbreviation Heap := (gmap loc Table).

Definition deref (h : Heap) (l : loc) : Table := default ∅ (h !! l).

Record Zone := mkZone {
  zoneName : string;
  nsName : string;
  localAddr : string;
  filename : string;
  mtime : Z;
  records : loc;
  allowCIDR : string
}.

(** [type pad struct { records map[string][]string }]. *)
Record pad := mkPad { pad_records : loc }.

Definition NewPad (r : loc) : pad := mkPad r.

Definition Records (s : pad) : loc := pad_records s.

(** A method of [*pad] run on the heap: it reads and writes the map its
    field points to. *)
Definition onPad {A} (s : pad) (c : PadM A) (h : Heap) : (Error + A) * Heap :=
  let '(r, t) := c (deref h (pad_records s)) in
  (r, <[pad_records s := t]> h).

(** [int32(x)] of an [int64]. *)
Definition int32 (x : Z) : Z := (x + 2 ^ 31) mod 2 ^ 32 - 2 ^ 31.

(** [%d] of [fmt.Sprintf]. *)
Definition itoa (x : Z) : string := NilZero.string_of_int (Z.to_int x).

Section Zone.
Context `{DNSLibrary}.

(** The reply under construction ([m] in [HandleRequest]); a [dns.RR] in a
    section can be [nil], which is [None]. *)
Record Msg := mkMsg {
  Rcode : Z;
  Authoritative : bool;
  Answer : list (option RR);
  Extra : list (option RR)
}.

(** What the program reads of the TSIG record of a request. *)
Record TSIG := mkTSIG {
  TsigName : string;
  Algorithm : string;
  Fudge : Z
}.

(** The request, with what the response writer knows of it: [IsTsig] is
    the TSIG record [r.IsTsig()] returns, [None] for [nil]; [TsigStatus]
    tells whether [w.TsigStatus()] is [nil]; [RemoteIn cidr] tells whether
    [w.RemoteAddr()] splits into host and port with the host inside
    [cidr]. *)
Record Request := mkRequest {
  Id : Z;
  Opcode : Z;
  Questions : list Question;
  Ns : list RR;
  IsTsig : option TSIG;
  TsigStatus : bool;
  RemoteIn : string → bool
}.

(** The TSIG record that passes the test
    [tsig := r.IsTsig(); tsig != nil && w.TsigStatus() == nil]. *)
Definition validTsig (r : Request) : option TSIG :=
  match IsTsig r with
  | Some tsig => if TsigStatus r then Some tsig else None
  | None => None
  end.

(** What the operating system and the Go runtime decide: whether the steps
    of [writeDB] succeed, the clock when [writeDB] reads it and when the
    argument of [m.SetTsig] is evaluated, and the order in which the
    [hop]-th lookup of the [i]-th question ranges over the keys of the
    table. *)
Record Env := mkEnv {
  CreateOK : bool;
  WriteOK : bool;
  FlushOK : bool;
  CloseOK : bool;
  Now : Z;
  NowTsig : Z;
  RangeOrder : nat → nat → list string
}.

(** Go ranges over the keys of a map in an order of its choice. *)
Definition rangesOver (env : Env) (t : Table) : Prop :=
  ∀ i hop, RangeOrder env i hop ≡ₚ (map_to_list t).*1.

Definition soaRR (z : Zone) : option RR :=
  NewRR (zoneName z +:+ " 3600 IN SOA localhost. nobody.  " +:+
         itoa (int32 (mtime z)) +:+ " 28800 7200 2419200 1200").

Definition nsRR (z : Zone) : option RR * option RR :=
  (NewRR (zoneName z +:+ " 3600 IN NS " +:+ nsName z),
   NewRR (nsName z +:+ " 3600 IN A " +:+ localAddr z)).

(** The first half of [getRecord]: the strings collected from the table,
    [keys] being the order of the range. *)
Definition matchedRecords (keys : list string) (t : Table)
    (qName : string) (qQtype : Z) : Error + list string :=
  if qQtype =? TypeANY then
    match GetKeyDomain qName with
    | inl err => inl err
    | inr prefix =>
      inr (flat_map (λ key, if HasPrefix key prefix then t !!! key else [])
                    keys)
    end
  else
    match GetKey qName qQtype with
    | inl err => inl err
    | inr key => inr (t !!! key)
    end.

(** The second loop of [getRecord]: restore each string and keep the
    records whose owner name is the question's. *)
Fixpoint restoreLoop (tmpqName : string) (matched : list string)
    (rr : list RR) : Error + list RR :=
  match matched with
  | [] => inr rr
  | v :: matched =>
    match NewRR v with
    | None => inl (errNewRR v)
    | Some tmp =>
      if String.eqb (ToLower (Name (Hdr tmp))) tmpqName
      then restoreLoop tmpqName matched (rr ++ [tmp])%list
      else restoreLoop tmpqName matched rr
    end
  end.

Definition getRecord (keys : list string) (t : Table)
    (qName : string) (qQtype : Z) : Error + list RR :=
  match matchedRecords keys t qName qQtype with
  | inl err => inl err
  | inr matched =>
    let tmpqName := ToLower qName in
    if (length matched =? 0)%nat then inl (errRecordNotFound tmpqName qQtype)
    else restoreLoop tmpqName matched []
  end.

(** The loop of [axfrRecord] over the collected strings. *)
Fixpoint axfrLoop (matched : list string) (rr : list (option RR))
  : Error + list (option RR) :=
  match matched with
  | [] => inr rr
  | v :: matched =>
    match NewRR v with
    | None => inl (errNewRR v)
    | Some tmp => axfrLoop matched (rr ++ [Some tmp])%list
    end
  end.

Definition axfrRecord (keys : list string) (z : Zone) (t : Table)
  : Error + list (option RR) :=
  let matched := flat_map (λ key, t !!! key) keys in
  let '(ns, a) := nsRR z in
  let rr := [soaRR z; ns; a] in
  match axfrLoop matched rr with
  | inl err => inl err
  | inr rr => inr (rr ++ [soaRR z])%list
  end.

Definition setRcode (m : Msg) (c : Z) : Msg :=
  mkMsg c (Authoritative m) (Answer m) (Extra m).
Definition setAuthoritative (m : Msg) (b : bool) : Msg :=
  mkMsg (Rcode m) b (Answer m) (Extra m).
Definition setAnswer (m : Msg) (a : list (option RR)) : Msg :=
  mkMsg (Rcode m) (Authoritative m) a (Extra m).
Definition setExtra (m : Msg) (e : list (option RR)) : Msg :=
  mkMsg (Rcode m) (Authoritative m) (Answer m) e.

(** [slices.Contains([]uint16{dns.TypeCNAME, q.Qtype}, t)]. *)
Definition wantedType (q : Question) (t : Z) : bool :=
  (t =? TypeCNAME) || (t =? Qtype q).

(** The loop [for _, rr := range rrs] inside the CNAME chase; [goto] is
    what [goto labelcname] does with the new name and the reply so far. *)
Fixpoint chaseLoop (goto : string → Msg → option Msg) (z : Zone)
    (q : Question) (rrs : list RR) (m : Msg) : option Msg :=
  match rrs with
  | [] => Some m
  | rr :: rrs =>
    if negb (wantedType q (Rrtype (Hdr rr))) then chaseLoop goto z q rrs m
    else
      let m := setAnswer m (Answer m ++ [Some rr])%list in
      if (Rrtype (Hdr rr) =? TypeCNAME) &&
         HasSuffix (CNAME_Target rr) (zoneName z)
      then goto (CNAME_Target rr) m
      else chaseLoop goto z q rrs m
  end.

(** The CNAME chase of [HandleRequest]: the statement labelled
    [labelcname].  Every [goto labelcname] takes one unit of [fuel]; the
    result is [None] when the fuel does not suffice.  Leaving the chase in
    any other way goes on to the next question, with the reply built so
    far.  [hop] counts the lookups made for question [i]. *)
Fixpoint chase (env : Env) (z : Zone) (t : Table) (q : Question)
    (i : nat) (fuel hop : nat) (qName : string) (qQtype : Z) (m : Msg)
    {struct fuel} : option Msg :=
  match getRecord (RangeOrder env i hop) t qName qQtype with
  | inl _ => Some m
  | inr rrs =>
    chaseLoop
      (λ target m,
         match fuel with
         | O => None
         | S fuel => chase env z t q i fuel (S hop) target TypeANY m
         end)
      z q rrs m
  end.

(** The loop over the questions of a query; [i] numbers the question. *)
Fixpoint queryLoop (env : Env) (fuel : nat) (z : Zone) (t : Table)
    (invalidTsig : bool) (i : nat) (qs : list Question) (m : Msg)
    {struct qs} : option Msg :=
  match qs with
  | [] => Some m
  | q :: qs =>
    let next := queryLoop env fuel z t invalidTsig (S i) qs in
    let qZone := String.eqb (ToLower (QName q)) (ToLower (zoneName z)) in
    if qZone && (Qtype q =? TypeNS) then
      let '(ns, a) := nsRR z in
      next (setExtra (setAnswer m (Answer m ++ [ns])%list)
                     (Extra m ++ [a])%list)
    else if qZone && (Qtype q =? TypeSOA) then
      next (setAnswer m (Answer m ++ [soaRR z])%list)
    else if qZone && (Qtype q =? TypeAXFR) then
      if invalidTsig then Some (setRcode m RcodeNotAuth)
      else
        let m := setAuthoritative m true in
        match axfrRecord (RangeOrder env i 0) z t with
        | inr rrs => next (setAnswer m rrs)
        | inl _ => next m
        end
    else
      match getRecord (RangeOrder env i 0) t (QName q) (Qtype q) with
      | inr rrs => next (setAnswer m (Answer m ++ (Some <$> rrs))%list)
      | inl _ =>
        if negb (Qtype q =? TypeCNAME) then
          match chase env z t q i fuel 1 (QName q) TypeCNAME m with
          | None => None
          | Some m => next m
          end
        else next m
      end
  end.

(** The two loops of the update case, run on the pad. *)
Fixpoint updateNs (ns : list RR) (question : Question) : PadM unit :=
  match ns with
  | [] => ret tt
  | rr :: ns => (run UpdateRecord rr question; updateNs ns question)%pad
  end.

Fixpoint updateQuestions (qs : list Question) (ns : list RR) : PadM unit :=
  match qs with
  | [] => ret tt
  | question :: qs =>
    (run updateNs ns question; updateQuestions qs ns)%pad
  end.

(** An error of package [os] or [bufio]. *)
Inductive IOError := errCreate | errWrite | errFlush.

(** [writeDB]: the file is not modelled, only whether writing it works.
    When closing the file fails the function returns the [err] of
    [os.Create], which is [nil] there, before it installs the table. *)
Definition writeDB (env : Env) (h : Heap) (z : Zone) (content : loc)
  : option IOError * Heap * Zone :=
  if negb (CreateOK env) then (Some errCreate, h, z)
  else if negb (WriteOK env) then (Some errWrite, h, z)
  else if negb (FlushOK env) then (Some errFlush, h, z)
  else if negb (CloseOK env) then (None, h, z)
  else
    let l := fresh (dom h) in
    (None, <[l := deref h content]> h,
     mkZone (zoneName z) (nsName z) (localAddr z) (filename z) (Now env)
            l (allowCIDR z)).

(** [m.SetReply(r)] leaves the reply with rcode 0 and empty sections. *)
Definition SetReply : Msg := mkMsg RcodeSuccess false [] [].

(** [m.Question] after [m.SetReply(r)]: the library copies the first
    question of the request, and no other. *)
Definition replyQuestion (r : Request) : list Question :=
  take 1 (Questions r).

(** [m.SetTsig(z, algo, fudge, timesigned)] appends a TSIG record to the
    additional section; [id] is the id of the message. *)
Definition SetTsig (m : Msg) (id : Z) (z algo : string)
    (fudge timesigned : Z) : Msg :=
  setExtra m
    (Extra m ++
     [Some (mkRR (mkHeader z TypeTSIG ClassANY 0 0)
                 (TSIG_Body algo fudge timesigned id))])%list.

(** The [switch r.Opcode] of [HandleRequest], with the reply at the
    [return] that leaves it.  A query ranges over [m.Question], an update
    over [r.Question]. *)
Definition dispatch (env : Env) (fuel : nat) (h : Heap) (z : Zone)
    (r : Request) : option (Heap * Zone * Msg) :=
  let m := SetReply in
  let invalidTsig :=
    match validTsig r with Some _ => false | None => true end in
  if Opcode r =? OpcodeQuery then
    match queryLoop env fuel z (deref h (records z)) invalidTsig 0
                    (replyQuestion r) m with
    | None => None
    | Some m => Some (h, z, m)
    end
  else if Opcode r =? OpcodeUpdate then
    if negb (String.eqb (allowCIDR z) "") && negb (RemoteIn r (allowCIDR z))
    then Some (h, z, setRcode m RcodeRefused)
    else if invalidTsig then Some (h, z, setRcode m RcodeNotAuth)
    else
      let pad := NewPad (records z) in
      match onPad pad (updateQuestions (Questions r) (Ns r)) h with
      | (inl _, h) => Some (h, z, setRcode m RcodeRefused)
      | (inr _, h) =>
        match writeDB env h z (Records pad) with
        | (Some _, h, z) => Some (h, z, setRcode m RcodeRefused)
        | (None, h, z) => Some (h, z, m)
        end
      end
  else Some (h, z, m).

(** [HandleRequest]: the reply is written by the deferred [w.WriteMsg(m)],
    after the deferred [m.SetTsig], which is registered when the request
    has a valid TSIG. *)
Definition HandleRequest (env : Env) (fuel : nat) (h : Heap) (z : Zone)
    (r : Request) : option (Heap * Zone * Msg) :=
  match dispatch env fuel h z r with
  | None => None
  | Some (h, z, m) =>
    Some (h, z,
          match validTsig r with
          | Some tsig =>
            SetTsig m (Id r) (TsigName tsig) (Algorithm tsig) (Fudge tsig)
                    (NowTsig env)
          | None => m
          end)
  end.

(** The table a query on the zone reads. *)
Definition liveTable (h : Heap) (z : Zone) : Table := deref h (records z).

End Zone.

(** ** The library on canonical records

    [miekg] implements [DNSLibrary] the way [github.com/miekg/dns] behaves
    on names without escape sequences and on records in presentation
    format: an owner name, a TTL, a class, a type and the record data,
    separated by blanks, all names fully qualified. *)
Module Miekg.

Definition tab : string := String (ascii_of_nat 9) "".

(** [dns.IsDomainName]: the name is made fully qualified, a dot may not
    start the name (the root apart) nor follow a dot, a label has at most
    63 octets and the whole name fits the wire limit.  Names with a
    backslash are outside this model and are rejected. *)
Definition Fqdn (s : string) : string :=
  if HasSuffix s "." then s else s +:+ ".".

Fixpoint isDomainNameLoop (len : nat) (s : string) (i begin off : nat)
    (wasDot : bool) : bool :=
  match s with
  | EmptyString => true
  | String c r =>
    if Ascii.eqb c "." then
      if (i =? 0)%nat && (1 <? len)%nat then false
      else if wasDot then false
      else
        let labelLen := (i - begin)%nat in
        if (64 <=? labelLen)%nat then false
        else
          let off := (off + 1 + labelLen)%nat in
          if (256 <? off)%nat then false
          else isDomainNameLoop len r (S i) (S i) off true
    else if Ascii.eqb c "\" then false
    else isDomainNameLoop len r (S i) begin off false
  end.

Definition isDomainName (s : string) : bool :=
  if (String.length s =? 0)%nat then false
  else
    let s := Fqdn s in
    isDomainNameLoop (String.length s) s 0 0 0 false.

(** [dns.SplitDomainName]: the labels, without the root. *)
Fixpoint splitLabels (s cur : string) : list string :=
  match s with
  | EmptyString => if String.eqb cur "" then [] else [cur]
  | String c r =>
    if Ascii.eqb c "." then cur :: splitLabels r ""
    else splitLabels r (cur +:+ String c "")
  end.

Definition splitDomainName (s : string) : list string :=
  if String.eqb s "." then [] else splitLabels s "".

(** [dns.TypeToString], for the types that occur here and the common
    ones; every other type prints as [TYPE] and its number. *)
Definition typeTable : list (Z * string) :=
  [(1, "A"); (2, "NS"); (5, "CNAME"); (6, "SOA"); (12, "PTR");
   (13, "HINFO"); (15, "MX"); (16, "TXT"); (28, "AAAA"); (33, "SRV");
   (35, "NAPTR"); (39, "DNAME"); (43, "DS"); (46, "RRSIG"); (47, "NSEC");
   (48, "DNSKEY"); (52, "TLSA"); (99, "SPF"); (250, "TSIG");
   (251, "IXFR"); (252, "AXFR"); (255, "ANY"); (257, "CAA")].

Definition classTable : list (Z * string) :=
  [(1, "IN"); (2, "CS"); (3, "CH"); (4, "HS"); (254, "NONE"); (255, "ANY")].

Fixpoint toString (table : list (Z * string)) (n : Z) : option string :=
  match table with
  | [] => None
  | (k, s) :: table => if n =? k then Some s else toString table n
  end.

Fixpoint fromString (table : list (Z * string)) (s : string) : option Z :=
  match table with
  | [] => None
  | (k, s') :: table => if String.eqb s s' then Some k else fromString table s
  end.

Definition typeString (t : Z) : string :=
  match toString typeTable t with
  | Some s => s
  | None => "TYPE" +:+ itoa t
  end.

Definition classString (c : Z) : string :=
  match toString classTable c with
  | Some s => s
  | None => "CLASS" +:+ itoa c
  end.

(** [rr.String()]: the header fields and the record data, tab separated. *)
Definition rrString (rr : RRof string) : string :=
  Name (Hdr rr) +:+ tab +:+ itoa (Ttl (Hdr rr)) +:+ tab +:+
  classString (RClass (Hdr rr)) +:+ tab +:+
  typeString (Rrtype (Hdr rr)) +:+ tab +:+ Body rr.

(** The blank-separated fields of a line. *)
Fixpoint fields (s cur : string) : list string :=
  match s with
  | EmptyString => if String.eqb cur "" then [] else [cur]
  | String c r =>
    if Ascii.eqb c " " || Ascii.eqb c (ascii_of_nat 9) then
      if String.eqb cur "" then fields r "" else cur :: fields r ""
    else fields r (cur +:+ String c "")
  end.

Definition atoi (s : string) : option Z :=
  match NilZero.uint_of_string s with
  | Some d => Some (Z.of_N (N.of_uint d))
  | None => None
  end.

(** [dns.NewRR] on a record in presentation format. *)
Definition newRR (s : string) : option (RRof string) :=
  match fields s "" with
  | name :: ttl :: class :: type :: rdata =>
    match atoi ttl, fromString classTable class, fromString typeTable type with
    | Some ttl, Some class, Some type =>
      if isDomainName name && negb (length rdata =? 0)%nat then
        Some (mkRR (mkHeader name type class ttl 0) (Join rdata " "))
      else None
    | _, _, _ => None
    end
  | _ => None
  end.

(** The fields [Msg.SetTsig] fills, as record data. *)
Definition tsigBody (algo : string) (fudge timesigned origId : Z) : string :=
  Join [algo; itoa timesigned; itoa fudge; itoa origId] " ".

#[export] Instance miekg : DNSLibrary := {|
  RData := string;
  IsDomainName := isDomainName;
  SplitDomainName := splitDomainName;
  Type_String := typeString;
  RR_String := rrString;
  NewRR := newRR;
  CNAME_Target := Body;
  TSIG_Body := tsigBody
|}.

End Miekg.

(** ** Properties the claims speak about *)

(** [c] occurs in [s]. *)
Fixpoint occurs (c : ascii) (s : string) : bool :=
  match s with
  | EmptyString => false
  | String c' r => Ascii.eqb c c' || occurs c r
  end.

Section Properties.
Context `{DNSLibrary}.

(** The tables an update can build: starting from the empty table of
    [New], each update RR leaves the table [UpdateRecord] made, whether it
    returned an error or not. *)
Inductive reachable : Table → Prop :=
| reach_empty : reachable ∅
| reach_update m r q : reachable m → reachable (UpdateRecord r q m).2.

(** No name has an entry for CNAME together with an entry for another
    type. *)
Definition exclusive (m : Table) : Prop :=
  ∀ name t kc k,
    t ≠ TypeCNAME →
    GetKey name TypeCNAME = inr kc →
    GetKey name t = inr k →
    ¬ (is_Some (m !! kc) ∧ is_Some (m !! k)).

(** A pad operation failed with one of the two conflict errors. *)
Definition conflicts (r : (Error + unit) * Table) : Prop :=
  ∃ e, err_of r = Some e ∧ ConflictExists e.

(** Some stored record has the owner name [name], compared the way
    [getRecord] compares names. *)
Definition recordAt (m : Table) (name : string) : bool :=
  existsb
    (λ kv : string * list string,
       existsb (λ v, match NewRR v with
                     | Some tmp => String.eqb (ToLower (Name (Hdr tmp)))
                                              (ToLower name)
                     | None => false
                     end) kv.2)
    (map_to_list m).

(** [omitRecord] drops the stored string [v] for the request [rr]. *)
Definition omitted (rr : RR) (v : string) : bool :=
  match NewRR v with
  | Some tmp => omitSame rr tmp
  | None => false
  end.

(** Every string of a list restores to a record. *)
Definition restorable (values : list string) : Prop :=
  Forall (λ v, is_Some (NewRR v)) values.

(** No string is stored under the key or keys a lookup reads:
    [GetKey qName qQtype] for a type, every key that starts with
    [GetKeyDomain qName] for ANY. *)
Definition noneStored (t : Table) (qName : string) (qQtype : Z) : Prop :=
  if qQtype =? TypeANY then
    ∃ prefix, GetKeyDomain qName = inr prefix ∧
      ∀ k vs, t !! k = Some vs → HasPrefix k prefix = true → vs = []
  else
    ∃ key, GetKey qName qQtype = inr key ∧ t !!! key = [].

(** The result after the name filter: the collected strings whose
    restored owner name is the question's. *)
Definition nameFiltered (keys : list string) (t : Table)
    (qName : string) (qQtype : Z) : list string :=
  match matchedRecords keys t qName qQtype with
  | inl _ => []
  | inr matched =>
    List.filter
      (λ v, match NewRR v with
            | Some tmp => String.eqb (ToLower (Name (Hdr tmp))) (ToLower qName)
            | None => false
            end)
      matched
  end.

(** All strings of the table, in the order of a range over [keys]. *)
Definition allRecords (keys : list string) (t : Table) : list string :=
  flat_map (λ key, t !!! key) keys.

End Properties.

(** ** Records, tables and requests to run the code on *)
Module Examples.
Import Miekg.

Definition inRR (name : string) (type : Z) (rdata : string) : RR :=
  mkRR (mkHeader name type ClassINET 3600 0) rdata.

Definition fooA : RR := inRR "foo.example.com." TypeA "10.0.0.1".
Definition fooA2 : RR := inRR "foo.example.com." TypeA "10.0.0.2".
Definition barA : RR := inRR "bar.example.com." TypeA "10.0.0.2".
Definition fooCNAME : RR := inRR "foo.example.com." TypeCNAME "baz.example.com.".
Definition wwwA : RR := inRR "www.example.com." TypeA "10.0.0.1".
Definition apexCNAME : RR := inRR "example.com." TypeCNAME "host.example.net.".
Definition badA : RR := inRR "foo..example.com." TypeA "10.0.0.1".

(** [a.example.com CNAME b.example.com] and [b.example.com A 10.0.0.9]. *)
Definition aliasAB : RR := inRR "a.example.com." TypeCNAME "b.example.com.".
Definition hostB : RR := inRR "b.example.com." TypeA "10.0.0.9".
(** The record closing a CNAME cycle. *)
Definition aliasBA : RR := inRR "b.example.com." TypeCNAME "a.example.com.".

(** The request to delete [fooA]: class NONE, TTL 0. *)
Definition delFooA : RR :=
  mkRR (mkHeader "foo.example.com." TypeA ClassNONE 0 4) "10.0.0.1".

Definition tblFoo : Table :=
  {[ "com.example.foo_A" := [rrString fooA; rrString fooA2] ]}.
Definition tblFooCNAME : Table :=
  {[ "com.example.foo_CNAME" := [rrString fooCNAME] ]}.
Definition tblFooBar : Table :=
  <[ "com.example.foo_A" := [rrString fooA] ]>
    {[ "com.example.bar_A" := [rrString barA] ]}.
Definition tblWww : Table :=
  {[ "com.example.www_A" := [rrString wwwA] ]}.
Definition tblChase : Table :=
  <[ "com.example.a_CNAME" := [rrString aliasAB] ]>
    {[ "com.example.b_A" := [rrString hostB] ]}.
Definition tblCycle : Table :=
  <[ "com.example.a_CNAME" := [rrString aliasAB] ]>
    {[ "com.example.b_CNAME" := [rrString aliasBA] ]}.

(** The zone [example.com], its table at location 1 of the heap. *)
Definition zoneOf (ns addr file : string) (mt : Z) (cidr : string) : Zone :=
  mkZone "example.com." ns addr file mt 1%positive cidr.
Definition zone0 : Zone := zoneOf "ns.example.com." "192.0.2.1" "zone.db" 1700000000 "".
Definition heapOf (t : Table) : Heap := {[ 1%positive := t ]}.

(** The zone section of an update, and the questions of the queries. *)
Definition qZone : Question := mkQuestion "example.com." TypeSOA ClassINET.
Definition qA : Question := mkQuestion "a.example.com." TypeA ClassINET.
Definition qApexANY : Question := mkQuestion "example.com." TypeANY ClassINET.
Definition qAXFR : Question := mkQuestion "example.com." TypeAXFR ClassINET.

(** Requests: a query with one question, signed or not, and a signed
    update of the zone. *)
Definition tsigKey : TSIG := mkTSIG "update.example.com." "hmac-sha256." 300.
Definition query (q : Question) (signed : bool) : Request :=
  mkRequest 1 OpcodeQuery [q] [] (if signed then Some tsigKey else None) true
            (λ _, true).
Definition update (ns : list RR) : Request :=
  mkRequest 1 OpcodeUpdate [qZone] ns (Some tsigKey) true (λ _, true).

(** The reply to a signed request, as it is written. *)
Definition signed (env : Env) (m : Msg) : Msg :=
  SetTsig m 1 "update.example.com." "hmac-sha256." 300 (NowTsig env).

(** An environment in which writing works and every range over the table
    [t] takes the keys in the order of [map_to_list]. *)
Definition envOf (t : Table) : Env :=
  mkEnv true true true true 1700000100 1700000099
        (λ _ _, (map_to_list t).*1).

End Examples.

(** ** The database file of package [zone] *)

(** [type Dic struct]; the field [Records] is spelled [DicRecords]. *)
Record Dic := mkDic {
  Domain : string;
  DicRecords : list string
}.

(** What [dec.Decode(&v)] yields on the next JSON value of the file: a
    value, or an error other than [io.EOF]; the end of the list is
    [io.EOF]. *)
Inductive Decoded :=
| Value (v : Dic)
| Malformed.

Inductive ReadError := errOpen | errDecode.

(** The loop of [ReadDB]: every decoded value is written into the table
    of the zone at once. *)
Fixpoint readLoop (stream : list Decoded) (t : Table)
  : option ReadError * Table :=
  match stream with
  | [] => (None, t)
  | Value v :: stream => readLoop stream (<[Domain v := DicRecords v]> t)
  | Malformed :: _ => (Some errDecode, t)
  end.

(** [ReadDB]; [file] is [None] when [os.Open] fails. *)
Definition ReadDB (file : option (list Decoded)) (t : Table)
  : option ReadError * Table :=
  match file with
  | None => (Some errOpen, t)
  | Some stream => readLoop stream t
  end.

(** The values [writeDB] marshals, one per line, [keys] being the order
    of its range over [content]. *)
Definition dbEntries (keys : list string) (content : Table) : list Dic :=
  (λ k, mkDic k (content !!! k)) <$> keys.

(** [zone.New]; [stat] is the modification time [os.Stat] reports, [None]
    when it fails.  The zone gets a map of its own. *)
Definition New (stat : option Z) (zoneName nsName filename localAddr
    allowCIDR : string) (h : Heap) : option (Heap * Zone) :=
  match stat with
  | None => None
  | Some mt =>
    let l := fresh (dom h) in
    Some (<[l := ∅]> h,
          mkZone zoneName nsName localAddr filename mt l allowCIDR)
  end.

(** ** [main.go]: which messages the server accepts *)

(** [dns.Header], the fields are 16-bit integers. *)
Record Header := mkDnsHeader {
  HId : Z;
  Bits : Z;
  Qdcount : Z;
  Ancount : Z;
  Nscount : Z;
  Arcount : Z
}.

Inductive MsgAcceptAction :=
| MsgAccept
| MsgReject
| MsgIgnore
| MsgRejectNotImplemented.

(** The [MsgAcceptFunc] of [createServer];
    [opcode := int(dh.Bits>>11) & 0xF]. *)
Definition MsgAcceptFunc (DefaultMsgAcceptFunc : Header → MsgAcceptAction)
    (dh : Header) : MsgAcceptAction :=
  let opcode := Z.land (Z.shiftr (Bits dh) 11) 15 in
  if opcode =? OpcodeUpdate then MsgAccept else DefaultMsgAcceptFunc dh.

Section MoreProperties.
Context `{DNSLibrary}.

(** The reply [m'] is the reply [m] with records appended to its answer
    section, each a CNAME or of the type of the question. *)
Definition extendsReply (q : Question) (m m' : Msg) : Prop :=
  Rcode m' = Rcode m ∧ Authoritative m' = Authoritative m ∧
  Extra m' = Extra m ∧
  ∃ more : list RR,
    Answer m' = (Answer m ++ (Some <$> more))%list ∧
    Forall (λ rr, Rrtype (Hdr rr) = TypeCNAME ∨ Rrtype (Hdr rr) = Qtype q)
           more.

End MoreProperties.

(** ** More records and tables to run the code on *)
Module Samples.
Import Miekg Examples.

(** Update RRs that delete: all RRsets of a name, and one RRset. *)
Definition delAll (name : string) : RR :=
  mkRR (mkHeader name TypeANY ClassANY 0 0) "".
Definition delRRset (name : string) (type : Z) : RR :=
  mkRR (mkHeader name type ClassANY 0 0) "".

Definition fooAAAA : RR := inRR "foo.example.com." 28 "2001:db8::1".
Definition upperFooA : RR := inRR "FOO.Example.COM." TypeA "10.0.0.1".

(** [foo] with two types, and [www]. *)
Definition tblMixed : Table :=
  <[ "com.example.foo_A" := [rrString fooA; rrString fooA2] ]>
    (<[ "com.example.foo_AAAA" := [rrString fooAAAA] ]> tblWww).

(** A table in which the RRset of the CNAME was emptied. *)
Definition tblEmptied : Table := {[ "com.example.foo_CNAME" := [] ]}.

(** The request to delete [fooCNAME]: class NONE, TTL 0. *)
Definition delFooCNAME : RR :=
  mkRR (mkHeader "foo.example.com." TypeCNAME ClassNONE 0 17)
       "baz.example.com.".

(** A CNAME whose target is outside the zone. *)
Definition aliasOut : RR :=
  inRR "a.example.com." TypeCNAME "host.example.net.".
Definition tblOut : Table :=
  {[ "com.example.a_CNAME" := [rrString aliasOut] ]}.

Definition qFooA : Question := mkQuestion "foo.example.com." TypeA ClassINET.
Definition qFooANY : Question :=
  mkQuestion "foo.example.com." TypeANY ClassINET.

(** A table with a line that is no record, as a database file edited by
    hand can give it. *)
Definition tblBroken : Table := {[ "com.example.foo_A" := ["foo 10.0.0.1"] ]}.

(** An unsigned update, and one from outside the allowed network. *)
Definition unsignedUpdate (ns : list RR) : Request :=
  mkRequest 1 OpcodeUpdate [qZone] ns None true (λ _, true).
Definition outsideUpdate (ns : list RR) : Request :=
  mkRequest 1 OpcodeUpdate [qZone] ns (Some tsigKey) true (λ _, false).
Definition zoneCIDR : Zone :=
  zoneOf "ns.example.com." "192.0.2.1" "zone.db" 1700000000 "192.0.2.0/24".

(** An environment like [envOf] in which creating the file fails. *)
Definition envNoCreate (t : Table) : Env :=
  mkEnv false true true true 1700000100 1700000099
        (λ _ _, (map_to_list t).*1).

End Samples.

(** * Theorems *)

(** ** Strings *)

Lemma prefix_append (p s : string) : String.prefix p (p +:+ s) = true.
Proof.
  induction p as [|c p IH]; simpl; [by destruct s|].
  destruct (ascii_dec c c); [exact IH | congruence].
Qed.

Lemma occurs_middle (c : ascii) (a b : string) :
  occurs c (a +:+ String c b) = true.
Proof.
  induction a as [|c' a IH]; simpl.
  - by rewrite Ascii.eqb_refl.
  - rewrite IH. apply orb_true_r.
Qed.

Lemma append_nil_l (s : string) : "" +:+ s = s.
Proof. reflexivity. Qed.

Lemma append_cons (c : ascii) (s t : string) :
  String c s +:+ t = String c (s +:+ t).
Proof. reflexivity. Qed.

(** A key splits at its last underscore. *)
Lemma key_split (p1 p2 t1 t2 : string) :
  occurs "_" t1 = false → occurs "_" t2 = false →
  p1 +:+ "_" +:+ t1 = p2 +:+ "_" +:+ t2 → p1 = p2 ∧ t1 = t2.
Proof.
  revert p2. induction p1 as [|c p1 IH]; intros [|c2 p2] H1 H2 E;
    repeat (rewrite append_nil_l in E || rewrite append_cons in E).
  - by injection E.
  - injection E as _ E. subst t1.
    by rewrite (occurs_middle "_" p2 t2) in H1.
  - injection E as _ E. subst t2.
    by rewrite (occurs_middle "_" p1 t1) in H2.
  - injection E as -> E.
    assert (p1 +:+ "_" +:+ t1 = p2 +:+ "_" +:+ t2) as E' by exact E.
    destruct (IH p2 H1 H2 E') as [-> ->]. done.
Qed.

Section RecordFacts.
Context `{DNSLibrary}.

(** ** The key codec *)

Lemma GetKeyDomain_valid (domain prefix : string) :
  GetKeyDomain domain = inr prefix → IsDomainName domain = true.
Proof. unfold GetKeyDomain. by destruct (IsDomainName domain). Qed.

Lemma GetKeyDomain_total (domain : string) :
  IsDomainName domain = true → ∃ prefix, GetKeyDomain domain = inr prefix.
Proof. unfold GetKeyDomain. intros ->. simpl. eauto. Qed.

Lemma GetKeyDomain_invalid (domain : string) :
  IsDomainName domain = false →
  GetKeyDomain domain = inl (errInvalidDomain domain).
Proof. unfold GetKeyDomain. by intros ->. Qed.

Lemma GetKey_prefix (domain prefix : string) (rtype : Z) :
  GetKeyDomain domain = inr prefix →
  GetKey domain rtype = inr (prefix +:+ "_" +:+ Type_String rtype).
Proof. unfold GetKey. by intros ->. Qed.

Lemma GetKey_inv (domain key : string) (rtype : Z) :
  GetKey domain rtype = inr key →
  ∃ prefix, GetKeyDomain domain = inr prefix ∧
            key = prefix +:+ "_" +:+ Type_String rtype.
Proof.
  unfold GetKey. destruct (GetKeyDomain domain) as [e|p]; [done|].
  intros [= <-]. eauto.
Qed.

Lemma key_has_prefix (prefix : string) (rtype : Z) :
  HasPrefix (prefix +:+ "_" +:+ Type_String rtype) prefix = true.
Proof. apply prefix_append. Qed.

(** ** Ranging over the keys of a table *)

Lemma existsb_keys (f : string → bool) (m : Table) :
  existsb f (map_to_list m).*1 = true ↔
  ∃ k, is_Some (m !! k) ∧ f k = true.
Proof.
  rewrite existsb_exists. split.
  - intros (k & Hin & Hf). exists k. split; [|done].
    apply list_elem_of_In, list_elem_of_fmap in Hin as ([k' v] & -> & Hin).
    apply elem_of_map_to_list in Hin. by exists v.
  - intros (k & [v Hk] & Hf). exists k. split; [|done].
    apply list_elem_of_In, list_elem_of_fmap. exists (k, v). split; [done|].
    by apply elem_of_map_to_list.
Qed.

Lemma hasRecords_valid (domain prefix : string) (m : Table) :
  GetKeyDomain domain = inr prefix →
  hasRecords domain m =
    (inr (existsb (λ key, HasPrefix key prefix) (map_to_list m).*1), m).
Proof. unfold hasRecords. by intros ->. Qed.

(** ** [UpdateRecord] by case *)

Lemma UpdateRecord_invalid (r : RR) (q : Question) (m : Table) :
  IsDomainName (Name (Hdr r)) = false → UpdateRecord r q m = (inr tt, m).
Proof. unfold UpdateRecord. by intros ->. Qed.

Lemma UpdateRecord_add (r : RR) (q : Question) :
  IsDomainName (Name (Hdr r)) = true → RClass (Hdr r) = ClassINET →
  UpdateRecord r q = storeRecord r.
Proof. unfold UpdateRecord. by intros -> ->. Qed.

Lemma UpdateRecord_omit (r : RR) (q : Question) :
  IsDomainName (Name (Hdr r)) = true →
  RClass (Hdr r) = ClassNONE → Ttl (Hdr r) = 0 →
  UpdateRecord r q = omitRecord r.
Proof. unfold UpdateRecord. by intros -> -> ->. Qed.

End RecordFacts.

Section PadFacts.
Context `{DNSLibrary}.

(** ** [storeRecord] and [omitRecord], statement by statement *)

Lemma storeRecord_CNAME (rr : RR) (m : Table) (prefix : string) :
  Rrtype (Hdr rr) = TypeCNAME →
  GetKeyDomain (Name (Hdr rr)) = inr prefix →
  storeRecord rr m =
    if existsb (λ key, HasPrefix key prefix) (map_to_list m).*1
    then (inl errRecordsIsExist, m)
    else
      let key := prefix +:+ "_" +:+ Type_String TypeCNAME in
      if Contains (m !!! key) (RR_String rr) then (inr tt, m)
      else (inr tt, <[key := ((m !!! key) ++ [RR_String rr])%list]> m).
Proof.
  intros Ht Hp. unfold storeRecord, bind. rewrite Ht. simpl.
  rewrite (hasRecords_valid _ _ _ Hp).
  destruct (existsb _ _) eqn:E; [done|]. simpl.
  rewrite (GetKey_prefix _ _ _ Hp). simpl.
  destruct (m !! _) as [vs|] eqn:Hk.
  - assert (existsb (λ key, HasPrefix key prefix) (map_to_list m).*1 = true)
      as E'; [|congruence].
    apply existsb_keys. eexists. split; [by rewrite Hk|]. apply key_has_prefix.
  - by destruct (Contains _ _).
Qed.

Lemma storeRecord_other (rr : RR) (m : Table) (prefix : string) :
  Rrtype (Hdr rr) ≠ TypeCNAME →
  GetKeyDomain (Name (Hdr rr)) = inr prefix →
  storeRecord rr m =
    match m !! (prefix +:+ "_" +:+ Type_String TypeCNAME) with
    | Some _ => (inl errCNAMERecordIsExist, m)
    | None =>
      let key := prefix +:+ "_" +:+ Type_String (Rrtype (Hdr rr)) in
      if Contains (m !!! key) (RR_String rr) then (inr tt, m)
      else (inr tt, <[key := ((m !!! key) ++ [RR_String rr])%list]> m)
    end.
Proof.
  intros Ht Hp. unfold storeRecord, bind.
  destruct (Z.eqb_spec (Rrtype (Hdr rr)) TypeCNAME) as [|_]; [done|]. simpl.
  rewrite !(GetKey_prefix _ _ _ Hp). simpl.
  destruct (m !! _); [done|]. by destruct (Contains _ _).
Qed.

Lemma omitLoop_filter (rr : RR) (values acc : list string) :
  restorable values →
  omitLoop rr values acc =
    inr (acc ++ List.filter (λ v, negb (omitted rr v)) values)%list.
Proof.
  intros Hv. revert acc.
  induction Hv as [|v values [tmp Hv] _ IH]; intros acc; simpl.
  - by rewrite app_nil_r.
  - unfold omitted at 1. rewrite Hv.
    destruct (omitSame rr tmp); simpl; rewrite IH; [done|].
    by rewrite <- app_assoc.
Qed.

Lemma omitRecord_absent (rr : RR) (m : Table) (key : string) :
  GetKey (Name (Hdr rr)) (Rrtype (Hdr rr)) = inr key →
  m !! key = None → omitRecord rr m = (inr tt, m).
Proof. unfold omitRecord, bind. intros -> Hm. simpl. by rewrite Hm. Qed.

Lemma omitRecord_present (rr : RR) (m : Table) (key : string)
    (values : list string) :
  GetKey (Name (Hdr rr)) (Rrtype (Hdr rr)) = inr key →
  m !! key = Some values → restorable values →
  omitRecord rr m =
    (inr tt, <[key := List.filter (λ v, negb (omitted rr v)) values]> m).
Proof.
  unfold omitRecord, bind. intros -> Hm Hv. simpl. rewrite Hm.
  by rewrite (omitLoop_filter _ _ _ Hv).
Qed.

(** A stored string that does not restore stops [omitRecord] with the
    library's error, before the table is written. *)
Lemma omitLoop_unrestorable (rr : RR) (values acc : list string) :
  ¬ restorable values → ∃ v, omitLoop rr values acc = inl (errNewRR v).
Proof.
  revert acc. induction values as [|v values IH]; intros acc Hbad.
  - destruct Hbad. constructor.
  - simpl. destruct (NewRR v) as [tmp|] eqn:Hv; [|eauto].
    assert (¬ restorable values) as Hrest.
    { intros Hr. apply Hbad. constructor; [by rewrite Hv|done]. }
    destruct (omitSame rr tmp); by apply IH.
Qed.

Lemma omitRecord_unrestorable (rr : RR) (m : Table) (key : string)
    (values : list string) :
  GetKey (Name (Hdr rr)) (Rrtype (Hdr rr)) = inr key →
  m !! key = Some values → ¬ restorable values →
  ∃ v, omitRecord rr m = (inl (errNewRR v), m).
Proof.
  unfold omitRecord, bind. intros -> Hm Hbad. simpl. rewrite Hm.
  destruct (omitLoop_unrestorable rr values [] Hbad) as [v ->]. eauto.
Qed.

(** ** One update RR is atomic: an error leaves the table as it was *)

Lemma storeRecord_error (rr : RR) (m : Table) (e : Error) :
  err_of (storeRecord rr m) = Some e → (storeRecord rr m).2 = m.
Proof.
  unfold storeRecord, hasRecords, bind, get, put, ret, throw, err_of.
  repeat (case_match; simplify_eq/=); done.
Qed.

Lemma omitRecord_error (rr : RR) (m : Table) (e : Error) :
  err_of (omitRecord rr m) = Some e → (omitRecord rr m).2 = m.
Proof.
  unfold omitRecord, bind, get, put, ret, throw, err_of.
  repeat (case_match; simplify_eq/=); done.
Qed.

Lemma deleteRecord_error (domain : string) (rtype : Z) (m : Table) (e : Error) :
  err_of (deleteRecord domain rtype m) = Some e →
  (deleteRecord domain rtype m).2 = m.
Proof.
  unfold deleteRecord, deleteRecords, bind, get, put, ret, throw, err_of.
  repeat (case_match; simplify_eq/=); done.
Qed.

Lemma UpdateRecord_error (r : RR) (q : Question) (m : Table) (e : Error) :
  err_of (UpdateRecord r q m) = Some e → (UpdateRecord r q m).2 = m.
Proof.
  unfold UpdateRecord.
  repeat case_match;
    eauto using storeRecord_error, omitRecord_error, deleteRecord_error.
Qed.

End PadFacts.

Section Exclusivity.
Context `{DNSLibrary}.

(** What the invariant needs of [dns.Type.String]: a type mnemonic has no
    underscore, and only type 5 prints as CNAME. *)
Hypothesis Type_String_plain : ∀ t, occurs "_" (Type_String t) = false.
Hypothesis Type_String_CNAME :
  ∀ t, Type_String t = Type_String TypeCNAME → t = TypeCNAME.

Lemma exclusive_shrink (m m' : Table) :
  (∀ k, is_Some (m' !! k) → is_Some (m !! k)) → exclusive m → exclusive m'.
Proof.
  intros Hsub Hm name t kc k Ht Hkc Hk [H1 H2].
  apply (Hm name t kc k Ht Hkc Hk). split; by apply Hsub.
Qed.

Lemma deleteRecord_shrinks (domain : string) (rtype : Z) (m : Table) (k : string) :
  is_Some ((deleteRecord domain rtype m).2 !! k) → is_Some (m !! k).
Proof.
  unfold deleteRecord, deleteRecords, bind, get, put, throw.
  repeat case_match; simpl; try done.
  - intros [v Hv]. apply map_lookup_filter_Some in Hv as [Hv _]. by exists v.
  - intros [v Hv]. apply lookup_delete_Some in Hv as [_ Hv]. by exists v.
Qed.

Lemma omitRecord_shrinks (rr : RR) (m : Table) (k : string) :
  is_Some ((omitRecord rr m).2 !! k) → is_Some (m !! k).
Proof.
  unfold omitRecord, bind, get, put, ret, throw.
  repeat case_match; simpl; try done.
  rewrite lookup_insert_is_Some. intros [<-|[_ ?]]; [eauto|done].
Qed.

(** Storing a CNAME where no key starts with the prefix keeps the
    invariant. *)
Lemma exclusive_insert_CNAME (m : Table) (prefix : string) (vs : list string) :
  (∀ k, is_Some (m !! k) → HasPrefix k prefix = false) →
  exclusive m →
  exclusive (<[prefix +:+ "_" +:+ Type_String TypeCNAME := vs]> m).
Proof.
  intros Hfree Hm name t kc k Ht Hkc Hk [H1 H2].
  apply GetKey_inv in Hkc as Hkc'. destruct Hkc' as (p & Hp & ->).
  rewrite (GetKey_prefix _ _ _ Hp) in Hk. injection Hk as <-.
  apply lookup_insert_is_Some in H1, H2.
  destruct H1 as [E1|[_ H1]].
  - apply key_split in E1 as [-> _]; [|done..].
    destruct H2 as [E2|[_ H2]].
    + apply key_split in E2 as [_ E2]; [|done..]. by apply Ht, Type_String_CNAME.
    + apply Hfree in H2. by rewrite key_has_prefix in H2.
  - destruct H2 as [E2|[_ H2]].
    + apply key_split in E2 as [_ E2]; [|done..]. by apply Ht, Type_String_CNAME.
    + apply (Hm name t _ _ Ht (GetKey_prefix _ _ _ Hp) (GetKey_prefix _ _ _ Hp)).
      done.
Qed.

(** Storing another type where the name has no CNAME entry keeps it. *)
Lemma exclusive_insert_other (m : Table) (prefix : string) (t : Z)
    (vs : list string) :
  t ≠ TypeCNAME →
  m !! (prefix +:+ "_" +:+ Type_String TypeCNAME) = None →
  exclusive m →
  exclusive (<[prefix +:+ "_" +:+ Type_String t := vs]> m).
Proof.
  intros Hne Hfree Hm name t' kc k Ht Hkc Hk [H1 H2].
  apply GetKey_inv in Hkc as Hkc'. destruct Hkc' as (p & Hp & ->).
  rewrite (GetKey_prefix _ _ _ Hp) in Hk. injection Hk as <-.
  apply lookup_insert_is_Some in H1, H2.
  destruct H1 as [E1|[_ H1]].
  - apply key_split in E1 as [_ E1]; [|done..]. by apply Hne, Type_String_CNAME.
  - destruct H2 as [E2|[_ H2]].
    + apply key_split in E2 as [-> _]; [|done..].
      rewrite Hfree in H1. by destruct H1.
    + apply (Hm name t' _ _ Ht (GetKey_prefix _ _ _ Hp) (GetKey_prefix _ _ _ Hp)).
      done.
Qed.

Lemma storeRecord_exclusive (rr : RR) (m : Table) :
  IsDomainName (Name (Hdr rr)) = true →
  exclusive m → exclusive (storeRecord rr m).2.
Proof.
  intros Hv Hm. destruct (GetKeyDomain_total _ Hv) as [prefix Hp].
  destruct (decide (Rrtype (Hdr rr) = TypeCNAME)) as [Ht|Ht].
  - rewrite (storeRecord_CNAME _ _ _ Ht Hp).
    destruct (existsb _ _) eqn:E; [done|]. simpl.
    destruct (Contains _ _); [done|]. simpl.
    apply exclusive_insert_CNAME; [|done].
    intros k Hk. destruct (HasPrefix k prefix) eqn:Hpre; [|done].
    assert (existsb (λ key, HasPrefix key prefix) (map_to_list m).*1 = true)
      as E'; [|congruence].
    apply existsb_keys. eauto.
  - rewrite (storeRecord_other _ _ _ Ht Hp).
    destruct (m !! _) eqn:Hc; [done|]. simpl.
    destruct (Contains _ _); [done|]. simpl.
    by apply exclusive_insert_other.
Qed.

Lemma UpdateRecord_exclusive (r : RR) (q : Question) (m : Table) :
  exclusive m → exclusive (UpdateRecord r q m).2.
Proof.
  intros Hm. unfold UpdateRecord.
  destruct (IsDomainName (Name (Hdr r))) eqn:Hv; [|done].
  repeat case_match; try done.
  - eapply exclusive_shrink; [|done]. apply deleteRecord_shrinks.
  - eapply exclusive_shrink; [|done]. apply omitRecord_shrinks.
  - by apply storeRecord_exclusive.
Qed.

Lemma reachable_exclusive (m : Table) : reachable m → exclusive m.
Proof.
  induction 1 as [|m r q _ IH].
  - intros name t kc k _ _ _ [[v Hv] _]. by rewrite lookup_empty in Hv.
  - by apply UpdateRecord_exclusive.
Qed.

(** What the two checks of [storeRecord] test, key by key.  Adding a
    CNAME RR at a well-formed name N (class IN) fails with a conflict
    error exactly when some key of the table starts with KeyPrefix(N);
    adding an RR of another type fails with a conflict error exactly when
    the table has an entry under ExactKey(N, CNAME); a failed add leaves
    the table as it was, and an update RR keeps a reachable table
    exclusive. *)
Lemma cname_exclusivity_by_key (m : Table) (r : RR) (q : Question)
    (prefix : string) :
  RClass (Hdr r) = ClassINET →
  GetKeyDomain (Name (Hdr r)) = inr prefix →
  (Rrtype (Hdr r) = TypeCNAME →
     (conflicts (UpdateRecord r q m) ↔
      ∃ k, is_Some (m !! k) ∧ HasPrefix k prefix = true)) ∧
  (Rrtype (Hdr r) ≠ TypeCNAME →
     (conflicts (UpdateRecord r q m) ↔
      is_Some (m !! (prefix +:+ "_" +:+ Type_String TypeCNAME)))) ∧
  (conflicts (UpdateRecord r q m) → (UpdateRecord r q m).2 = m) ∧
  (reachable m → exclusive m ∧ exclusive (UpdateRecord r q m).2).
Proof.
  intros Hc Hp. pose proof (GetKeyDomain_valid _ _ Hp) as Hv.
  split; [|split; [|split]].
  - intros Ht. rewrite (UpdateRecord_add _ _ Hv Hc).
    rewrite (storeRecord_CNAME _ _ _ Ht Hp), <- existsb_keys.
    unfold conflicts, ConflictExists, err_of.
    destruct (existsb _ _); simpl.
    + split; [done|]. intros _. eauto.
    + split; [|done]. destruct (Contains _ _); by intros (e & [=] & _).
  - intros Ht. rewrite (UpdateRecord_add _ _ Hv Hc).
    rewrite (storeRecord_other _ _ _ Ht Hp).
    unfold conflicts, ConflictExists, err_of.
    destruct (m !! _); simpl.
    + split; [eauto|]. intros _. eauto.
    + split; [|by intros [? [=]]].
      destruct (Contains _ _); by intros (e & [=] & _).
  - intros (e & He & _). by apply UpdateRecord_error in He.
  - intros Hr. pose proof (reachable_exclusive _ Hr).
    split; [done|]. by apply UpdateRecord_exclusive.
Qed.

(** A batch leaves a table that update RRs build, whether it ends in an
    error or not. *)
Lemma updateNs_reachable (ns : list RR) (q : Question) (m : Table) :
  reachable m → reachable (updateNs ns q m).2.
Proof.
  revert m. induction ns as [|rr ns IH]; intros m Hm; [done|].
  cbn [updateNs]. unfold bind.
  pose proof (reach_update m rr q Hm) as Hs.
  destruct (UpdateRecord rr q m) as [[e|[]] m']; [done|]. by apply IH.
Qed.

Lemma updateQuestions_reachable (qs : list Question) (ns : list RR)
    (m : Table) :
  reachable m → reachable (updateQuestions qs ns m).2.
Proof.
  revert m. induction qs as [|q qs IH]; intros m Hm; [done|].
  cbn [updateQuestions]. unfold bind.
  pose proof (updateNs_reachable ns q m Hm) as Hs.
  destruct (updateNs ns q m) as [[e|[]] m']; [done|]. by apply IH.
Qed.

(** X24.  The pad never holds a CNAME beside another type.  In a table
    that update RRs built from the empty table no name has an entry under
    its CNAME key together with an entry under its key of another type,
    and the update loop of [HandleRequest] leaves such a table again,
    whatever the questions and update RRs of the request and whether the
    loop ran to its end or stopped at an error. *)
Theorem batches_keep_cname_apart (m : Table) (qs : list Question)
    (ns : list RR) :
  reachable m →
  exclusive m ∧
  reachable (updateQuestions qs ns m).2 ∧
  exclusive (updateQuestions qs ns m).2.
Proof.
  intros Hm. pose proof (updateQuestions_reachable qs ns m Hm) as Hm'.
  split; [|split]; [|done|]; by apply reachable_exclusive.
Qed.

End Exclusivity.

Section UpdateClaims.
Context `{DNSLibrary}.

Lemma Contains_present (m : Table) (key s : string) :
  Contains (m !!! key) s = true → is_Some (m !! key).
Proof.
  rewrite lookup_total_alt. destruct (m !! key); [eauto|done].
Qed.

(** A duplicate of another type is ignored, where the name has no CNAME
    entry. *)
Lemma duplicate_other_ignored (m : Table) (r : RR) (q : Question)
    (prefix : string) :
  RClass (Hdr r) = ClassINET → Rrtype (Hdr r) ≠ TypeCNAME →
  GetKeyDomain (Name (Hdr r)) = inr prefix →
  m !! (prefix +:+ "_" +:+ Type_String TypeCNAME) = None →
  Contains (m !!! (prefix +:+ "_" +:+ Type_String (Rrtype (Hdr r))))
           (RR_String r) = true →
  UpdateRecord r q m = (inr tt, m).
Proof.
  intros Hc Ht Hp Hfree Hdup.
  rewrite (UpdateRecord_add _ _ (GetKeyDomain_valid _ _ Hp) Hc).
  rewrite (storeRecord_other _ _ _ Ht Hp), Hfree. simpl. by rewrite Hdup.
Qed.

(** C4, on the code.  Adding a CNAME RR (class IN) whose string is already
    stored in its RRset is not ignored: [UpdateRecord] returns the error
    "records is exists", because [hasRecords] finds the RRset of the
    record itself before the duplicate guard is reached. *)
Theorem duplicate_CNAME_refused (m : Table) (r : RR) (q : Question)
    (key : string) :
  RClass (Hdr r) = ClassINET →
  Rrtype (Hdr r) = TypeCNAME →
  GetKey (Name (Hdr r)) (Rrtype (Hdr r)) = inr key →
  Contains (m !!! key) (RR_String r) = true →
  UpdateRecord r q m = (inl errRecordsIsExist, m).
Proof.
  intros Hc Ht Hk Hdup.
  destruct (GetKey_inv _ _ _ Hk) as (prefix & Hp & ->).
  rewrite (UpdateRecord_add _ _ (GetKeyDomain_valid _ _ Hp) Hc).
  rewrite (storeRecord_CNAME _ _ _ Ht Hp).
  assert (existsb (λ key, HasPrefix key prefix) (map_to_list m).*1 = true)
    as ->; [|done].
  apply existsb_keys. eexists. split; [by eapply Contains_present|].
  apply key_has_prefix.
Qed.

(** C5 (as amended).  An update RR whose owner name is not a well-formed
    domain name is ignored: [UpdateRecord] returns no error and leaves the
    table as it is, so a batch with such an RR does what the batch without
    it does. *)
Theorem invalid_name_ignored (r : RR) (q : Question) :
  IsDomainName (Name (Hdr r)) = false →
  (∀ m, UpdateRecord r q m = (inr tt, m)) ∧
  (∀ pre post m, updateNs (pre ++ r :: post) q m = updateNs (pre ++ post) q m).
Proof.
  intros Hbad. split; [intros m; by apply UpdateRecord_invalid|].
  intros pre post. induction pre as [|r' pre IH]; intros m; simpl; unfold bind.
  - by rewrite (UpdateRecord_invalid _ _ _ Hbad).
  - destruct (UpdateRecord r' q m) as [[e|[]] m']; [done|]. apply IH.
Qed.

(** C9.  An update RR with class NONE and TTL 0 (and a well-formed name,
    so that it has a key) removes from the RRset under its key exactly the
    stored strings that [omitRecord] finds equal to it -- restored, with
    TTL 0 and class NONE, compared in lower case -- and keeps the others in
    their order; it changes nothing and returns no error when the table
    has no such RRset or the RRset has no such record. *)
Theorem omit_removes_matching (m : Table) (r : RR) (q : Question)
    (key : string) :
  RClass (Hdr r) = ClassNONE → Ttl (Hdr r) = 0 →
  GetKey (Name (Hdr r)) (Rrtype (Hdr r)) = inr key →
  (m !! key = None → UpdateRecord r q m = (inr tt, m)) ∧
  (∀ values, m !! key = Some values → restorable values →
     UpdateRecord r q m =
       (inr tt, <[key := List.filter (λ v, negb (omitted r v)) values]> m) ∧
     (Forall (λ v, omitted r v = false) values →
        UpdateRecord r q m = (inr tt, m))).
Proof.
  intros Hc Httl Hk.
  destruct (GetKey_inv _ _ _ Hk) as (prefix & Hp & _).
  rewrite (UpdateRecord_omit _ _ (GetKeyDomain_valid _ _ Hp) Hc Httl).
  split; [by apply omitRecord_absent|].
  intros values Hm Hv. rewrite (omitRecord_present _ _ _ _ Hk Hm Hv).
  split; [done|]. intros Hnone. f_equal.
  rewrite forallb_filter_id; [by apply insert_id|].
  apply forallb_forall. intros v Hin.
  rewrite Forall_forall in Hnone. rewrite Hnone; [done|].
  by apply list_elem_of_In.
Qed.

Lemma storeRecord_frame (rr : RR) (m : Table) (k : string) :
  GetKey (Name (Hdr rr)) (Rrtype (Hdr rr)) ≠ inr k →
  (storeRecord rr m).2 !! k = m !! k.
Proof.
  unfold storeRecord, hasRecords, bind, get, put, ret, throw.
  intros Hk. repeat (case_match; simplify_eq/=); try done.
  all: apply lookup_insert_ne; congruence.
Qed.

Lemma omitRecord_frame (rr : RR) (m : Table) (k : string) :
  GetKey (Name (Hdr rr)) (Rrtype (Hdr rr)) ≠ inr k →
  (omitRecord rr m).2 !! k = m !! k.
Proof.
  unfold omitRecord, bind, get, put, ret, throw.
  intros Hk. repeat (case_match; simplify_eq/=); try done.
  all: apply lookup_insert_ne; congruence.
Qed.

(** C10.  An add (class IN) and a delete of one RR (class NONE, TTL 0)
    change at most the entry under the key of the RR's name and type:
    every other key has the same record list before and after, whether
    the operation succeeds or not. *)
Theorem single_record_frame (m : Table) (r : RR) (q : Question) (k : string) :
  RClass (Hdr r) = ClassINET ∨ (RClass (Hdr r) = ClassNONE ∧ Ttl (Hdr r) = 0) →
  GetKey (Name (Hdr r)) (Rrtype (Hdr r)) ≠ inr k →
  (UpdateRecord r q m).2 !! k = m !! k.
Proof.
  intros Hc Hk.
  destruct (IsDomainName (Name (Hdr r))) eqn:Hv;
    [|by rewrite (UpdateRecord_invalid _ _ _ Hv)].
  destruct Hc as [Hc|[Hc Httl]].
  - rewrite (UpdateRecord_add _ _ Hv Hc). by apply storeRecord_frame.
  - rewrite (UpdateRecord_omit _ _ Hv Hc Httl). by apply omitRecord_frame.
Qed.

End UpdateClaims.

Section QueryFacts.
Context `{DNSLibrary}.

(** ** The lookup *)

Lemma flat_map_nil {A B} (f : A → list B) (l : list A) :
  flat_map f l = [] ↔ ∀ x, x ∈ l → f x = [].
Proof.
  induction l as [|a l IH]; simpl.
  - split; [|done]. intros _ x Hx. by apply elem_of_nil in Hx.
  - rewrite app_nil, IH. split.
    + intros [Ha Hl] x [->|Hx]%elem_of_cons; auto.
    + intros Hall. split; [|intros x Hx]; apply Hall.
      * apply elem_of_cons; by left.
      * apply elem_of_cons; by right.
Qed.

Lemma range_key (keys : list string) (t : Table) (k : string) :
  keys ≡ₚ (map_to_list t).*1 → (k ∈ keys ↔ is_Some (t !! k)).
Proof.
  intros ->. rewrite list_elem_of_fmap. split.
  - intros ([k' v] & -> & Hin). apply elem_of_map_to_list in Hin. by exists v.
  - intros [v Hv]. exists (k, v). by rewrite elem_of_map_to_list.
Qed.

Lemma matchedRecords_none (keys : list string) (t : Table)
    (qName : string) (qQtype : Z) :
  keys ≡ₚ (map_to_list t).*1 →
  (matchedRecords keys t qName qQtype = inr [] ↔ noneStored t qName qQtype).
Proof.
  intros Hkeys. unfold matchedRecords, noneStored.
  destruct (qQtype =? TypeANY).
  - destruct (GetKeyDomain qName) as [e|prefix].
    { split; [done|]. by intros (? & [=] & _). }
    split.
    + intros [= Hnil]. exists prefix. split; [done|]. intros k vs Hk Hpre.
      rewrite flat_map_nil in Hnil.
      specialize (Hnil k (proj2 (range_key _ _ _ Hkeys) (mk_is_Some _ _ Hk))).
      simpl in Hnil. rewrite Hpre in Hnil.
      by rewrite (lookup_total_correct _ _ _ Hk) in Hnil.
    + intros (p & [= <-] & Hall). f_equal. apply flat_map_nil. intros k Hk.
      destruct (HasPrefix k prefix) eqn:Hpre; [|done].
      apply (range_key _ _ _ Hkeys) in Hk as [vs Hk].
      rewrite (lookup_total_correct _ _ _ Hk). by eapply Hall.
  - destruct (GetKey qName qQtype) as [e|key].
    { split; [done|]. by intros (? & [=] & _). }
    split.
    + intros [= Hnil]. eauto.
    + by intros (k & [= <-] & ->).
Qed.

Lemma restoreLoop_found (n : string) (matched : list string) (acc : list RR)
    (n' : string) (ty : Z) :
  restoreLoop n matched acc ≠ inl (errRecordNotFound n' ty).
Proof.
  revert acc. induction matched as [|v matched IH]; intros acc; simpl; [done|].
  destruct (NewRR v); [|done]. by destruct (String.eqb _ _).
Qed.

Lemma restoreLoop_other_names (n : string) (matched : list string)
    (acc : list RR) :
  Forall (λ v, ∃ tmp, NewRR v = Some tmp ∧ ToLower (Name (Hdr tmp)) ≠ n)
         matched →
  restoreLoop n matched acc = inr acc.
Proof.
  induction 1 as [|v matched (tmp & Hv & Hn) _ IH]; simpl; [done|].
  rewrite Hv. by destruct (String.eqb_spec (ToLower (Name (Hdr tmp))) n).
Qed.

(** C6 (as amended).  The lookup signals "Record not found" exactly when
    no string is stored under the key or keys it reads, that is when the
    list collected before the name filter is empty.  When strings were
    collected and the name filter drops every record -- as in an ANY
    lookup whose matching keys hold only records of other owner names --
    the lookup succeeds with an empty answer. *)
Theorem not_found_before_name_filter (keys : list string) (t : Table)
    (qName : string) (qQtype : Z) :
  keys ≡ₚ (map_to_list t).*1 →
  ((∃ n ty, getRecord keys t qName qQtype = inl (errRecordNotFound n ty)) ↔
   noneStored t qName qQtype) ∧
  (∀ matched,
     matchedRecords keys t qName qQtype = inr matched → matched ≠ [] →
     Forall (λ v, ∃ tmp, NewRR v = Some tmp ∧
                         ToLower (Name (Hdr tmp)) ≠ ToLower qName) matched →
     getRecord keys t qName qQtype = inr []).
Proof.
  intros Hkeys. split.
  - rewrite <- (matchedRecords_none keys) by done. unfold getRecord.
    destruct (matchedRecords keys t qName qQtype) as [e|matched] eqn:Hm.
    + split; [|done]. intros (n & ty & [= ->]).
      unfold matchedRecords, GetKey, GetKeyDomain in Hm.
      repeat case_match; simplify_eq.
    + destruct matched as [|v matched].
      * simpl. split; [done|]. eauto.
      * change (length (v :: matched) =? 0)%nat with false. cbv iota.
        split; [|done]. intros (n & ty & Hr). by apply restoreLoop_found in Hr.
  - intros matched Hm Hne Hall. unfold getRecord. rewrite Hm.
    destruct matched as [|v matched]; [done|].
    change (length (v :: matched) =? 0)%nat with false. cbv iota.
    by apply restoreLoop_other_names.
Qed.

(** ** The questions of a query *)

Lemma chase_eq (env : Env) (z : Zone) (t : Table) (q : Question)
    (i fuel hop : nat) (qName : string) (qQtype : Z) (m : Msg) :
  chase env z t q i fuel hop qName qQtype m =
    match getRecord (RangeOrder env i hop) t qName qQtype with
    | inl _ => Some m
    | inr rrs =>
      chaseLoop
        (λ target m,
           match fuel with
           | O => None
           | S fuel => chase env z t q i fuel (S hop) target TypeANY m
           end)
        z q rrs m
    end.
Proof. by destruct fuel. Qed.

(** A question that is not about the zone name goes to the lookup. *)
Lemma queryLoop_lookup (env : Env) (fuel : nat) (z : Zone) (t : Table)
    (invalidTsig : bool) (i : nat) (q : Question) (qs : list Question)
    (m : Msg) :
  String.eqb (ToLower (QName q)) (ToLower (zoneName z)) = false →
  queryLoop env fuel z t invalidTsig i (q :: qs) m =
    match getRecord (RangeOrder env i 0) t (QName q) (Qtype q) with
    | inr rrs =>
      queryLoop env fuel z t invalidTsig (S i) qs
                (setAnswer m (Answer m ++ (Some <$> rrs))%list)
    | inl _ =>
      if negb (Qtype q =? TypeCNAME) then
        match chase env z t q i fuel 1 (QName q) TypeCNAME m with
        | None => None
        | Some m => queryLoop env fuel z t invalidTsig (S i) qs m
        end
      else queryLoop env fuel z t invalidTsig (S i) qs m
    end.
Proof. intros Hz. simpl. by rewrite Hz. Qed.

Lemma queryLoop_found (env : Env) (fuel : nat) (z : Zone) (t : Table)
    (invalidTsig : bool) (i : nat) (q : Question) (qs : list Question)
    (m : Msg) (rrs : list RR) :
  String.eqb (ToLower (QName q)) (ToLower (zoneName z)) = false →
  getRecord (RangeOrder env i 0) t (QName q) (Qtype q) = inr rrs →
  queryLoop env fuel z t invalidTsig i (q :: qs) m =
    queryLoop env fuel z t invalidTsig (S i) qs
              (setAnswer m (Answer m ++ (Some <$> rrs))%list).
Proof. intros Hz Hr. by rewrite (queryLoop_lookup _ _ _ _ _ _ _ _ _ Hz), Hr. Qed.

Lemma queryLoop_chase (env : Env) (fuel : nat) (z : Zone) (t : Table)
    (invalidTsig : bool) (i : nat) (q : Question) (qs : list Question)
    (m : Msg) (e : Error) :
  String.eqb (ToLower (QName q)) (ToLower (zoneName z)) = false →
  getRecord (RangeOrder env i 0) t (QName q) (Qtype q) = inl e →
  Qtype q ≠ TypeCNAME →
  queryLoop env fuel z t invalidTsig i (q :: qs) m =
    match chase env z t q i fuel 1 (QName q) TypeCNAME m with
    | None => None
    | Some m => queryLoop env fuel z t invalidTsig (S i) qs m
    end.
Proof.
  intros Hz Hr Hty. rewrite (queryLoop_lookup _ _ _ _ _ _ _ _ _ Hz), Hr.
  by destruct (Z.eqb_spec (Qtype q) TypeCNAME).
Qed.

(** The three ways through the body of the chase loop. *)
Lemma chaseLoop_skip (goto : string → Msg → option Msg) (z : Zone)
    (q : Question) (rr : RR) (rrs : list RR) (m : Msg) :
  wantedType q (Rrtype (Hdr rr)) = false →
  chaseLoop goto z q (rr :: rrs) m = chaseLoop goto z q rrs m.
Proof. intros Hw. simpl. by rewrite Hw. Qed.

Lemma chaseLoop_keep (goto : string → Msg → option Msg) (z : Zone)
    (q : Question) (rr : RR) (rrs : list RR) (m : Msg) :
  wantedType q (Rrtype (Hdr rr)) = true →
  (Rrtype (Hdr rr) =? TypeCNAME) &&
    HasSuffix (CNAME_Target rr) (zoneName z) = false →
  chaseLoop goto z q (rr :: rrs) m =
    chaseLoop goto z q rrs (setAnswer m (Answer m ++ [Some rr])%list).
Proof. intros Hw Hf. simpl. by rewrite Hw, Hf. Qed.

Lemma chaseLoop_follow (goto : string → Msg → option Msg) (z : Zone)
    (q : Question) (rr : RR) (rrs : list RR) (m : Msg) :
  wantedType q (Rrtype (Hdr rr)) = true →
  (Rrtype (Hdr rr) =? TypeCNAME) &&
    HasSuffix (CNAME_Target rr) (zoneName z) = true →
  chaseLoop goto z q (rr :: rrs) m =
    goto (CNAME_Target rr) (setAnswer m (Answer m ++ [Some rr])%list).
Proof. intros Hw Hf. simpl. by rewrite Hw, Hf. Qed.

Lemma axfrLoop_restored (matched : list string) (rrs : list RR)
    (acc : list (option RR)) :
  Forall2 (λ v rr, NewRR v = Some rr) matched rrs →
  axfrLoop matched acc = inr (acc ++ (Some <$> rrs))%list.
Proof.
  intros Hall. revert acc.
  induction Hall as [|v rr matched rrs Hv _ IH]; intros acc; simpl.
  - by rewrite app_nil_r.
  - rewrite Hv, IH. by rewrite <- app_assoc.
Qed.

Lemma allRecords_all (keys : list string) (t : Table) :
  keys ≡ₚ (map_to_list t).*1 →
  allRecords keys t ≡ₚ concat (map_to_list t).*2.
Proof.
  intros Hkeys. unfold allRecords.
  rewrite (Permutation_flat_map _ Hkeys).
  assert (∀ l : list (string * list string),
            (∀ kv, kv ∈ l → t !! kv.1 = Some kv.2) →
            flat_map (λ key, t !!! key) l.*1 = concat l.*2) as Hgen.
  { induction l as [|[k v] l IH]; intros Hl; simpl; [done|].
    rewrite (lookup_total_correct t k v); [|apply (Hl (k, v)); set_solver].
    f_equal. apply IH. intros kv Hkv. apply Hl. set_solver. }
  rewrite Hgen; [done|]. intros [k v] Hkv. by apply elem_of_map_to_list.
Qed.

(** C8.  A query whose question is an AXFR for the zone name: without a
    valid TSIG the reply has rcode NotAuth and empty sections, and heap
    and zone are as before; with a valid TSIG, and the stored strings
    restoring to the records [rrs], the answer section is the SOA, the NS,
    the A of the name server, the records [rrs] and the SOA again (and the
    reply carries its TSIG record).  The stored strings are all strings of
    the table, key by key. *)
Theorem axfr_gate_and_envelope (env : Env) (fuel : nat) (h : Heap) (z : Zone)
    (r : Request) (q : Question) :
  Opcode r = OpcodeQuery → Questions r = [q] →
  String.eqb (ToLower (QName q)) (ToLower (zoneName z)) = true →
  Qtype q = TypeAXFR →
  (validTsig r = None →
     HandleRequest env fuel h z r =
       Some (h, z, mkMsg RcodeNotAuth false [] [])) ∧
  (∀ tsig, validTsig r = Some tsig →
     ∀ rrs,
       Forall2 (λ v rr, NewRR v = Some rr)
               (allRecords (RangeOrder env 0 0) (liveTable h z)) rrs →
       HandleRequest env fuel h z r =
         Some (h, z,
               SetTsig
                 (mkMsg RcodeSuccess true
                        ([soaRR z; (nsRR z).1; (nsRR z).2] ++
                         (Some <$> rrs) ++ [soaRR z])%list [])
                 (Id r) (TsigName tsig) (Algorithm tsig) (Fudge tsig)
                 (NowTsig env))) ∧
  (rangesOver env (liveTable h z) →
     allRecords (RangeOrder env 0 0) (liveTable h z) ≡ₚ
       concat (map_to_list (liveTable h z)).*2).
Proof.
  intros Hop Hqs Hz Hty. split; [|split].
  - intros Htsig. unfold HandleRequest, dispatch, replyQuestion.
    rewrite Hop, Hqs, Htsig. simpl. by rewrite Hz, Hty.
  - intros tsig Htsig rrs Hrrs. unfold HandleRequest, dispatch, replyQuestion.
    rewrite Hop, Hqs, Htsig. simpl.
    rewrite Hz, Hty. simpl. unfold axfrRecord. simpl.
    unfold liveTable, allRecords in Hrrs.
    by rewrite (axfrLoop_restored _ _ _ Hrrs).
  - intros Hr. apply allRecords_all, Hr.
Qed.

End QueryFacts.

(** ** The library instance, and the code on concrete records *)
Section Concrete.
Import Miekg Examples.

Lemma uint_plain (d : Decimal.uint) :
  occurs "_" (NilEmpty.string_of_uint d) = false.
Proof. induction d as [|d IH|d IH|d IH|d IH|d IH|d IH|d IH|d IH|d IH|d IH]; simpl; [done|exact IH..]. Qed.

Lemma nilzero_plain (d : Decimal.uint) :
  occurs "_" (NilZero.string_of_uint d) = false.
Proof. destruct d; simpl; [done|apply uint_plain..]. Qed.

Lemma itoa_plain (x : Z) : occurs "_" (itoa x) = false.
Proof.
  unfold itoa, NilZero.string_of_int.
  destruct (Z.to_int x) as [d|d]; [|simpl]; apply nilzero_plain.
Qed.

Lemma toString_In (table : list (Z * string)) (n : Z) (s : string) :
  toString table n = Some s → In (n, s) table.
Proof.
  induction table as [|[k s'] table IH]; simpl; [done|].
  destruct (Z.eqb_spec n k) as [->|_]; [intros [= ->]; by left|].
  intros Hs. right. by apply IH.
Qed.

Lemma typeString_plain (t : Z) : occurs "_" (typeString t) = false.
Proof.
  unfold typeString. destruct (toString typeTable t) as [s|] eqn:Hs.
  - apply toString_In in Hs. simpl in Hs.
    repeat (destruct Hs as [[= <- <-]|Hs]; [done|]). done.
  - apply itoa_plain.
Qed.

Lemma typeString_CNAME (t : Z) :
  typeString t = typeString TypeCNAME → t = TypeCNAME.
Proof.
  unfold typeString at 1. destruct (toString typeTable t) as [s|] eqn:Hs.
  - intros E. change (typeString TypeCNAME) with "CNAME" in E. subst s.
    apply toString_In in Hs. simpl in Hs.
    repeat (destruct Hs as [Hs'|Hs]; [by simplify_eq|]). done.
  - done.
Qed.

Lemma deref_heapOf (t : Table) (z : Zone) :
  records z = 1%positive → deref (heapOf t) (records z) = t.
Proof. intros ->. unfold deref, heapOf. by rewrite lookup_singleton_eq. Qed.

(** *** The update batch *)

(** C1, on the code.  On the empty table, the batch that adds
    [foo A 10.0.0.1], [bar A 10.0.0.2] and then [foo CNAME baz] fails at
    the third RR and the reply has rcode Refused; the table of the zone
    then holds the first two records, because the pad works on the very
    map of the zone. *)
Theorem failed_batch_keeps_partial_updates (env : Env) (fuel : nat) :
  HandleRequest env fuel (heapOf ∅) zone0 (update [fooA; barA; fooCNAME]) =
    Some (heapOf tblFooBar, zone0,
          signed env (mkMsg RcodeRefused false [] [])) ∧
  liveTable (heapOf ∅) zone0 = ∅ ∧
  liveTable (heapOf tblFooBar) zone0 = tblFooBar ∧
  tblFooBar ≠ ∅.
Proof.
  split; [vm_compute; reflexivity|].
  split; [by apply deref_heapOf|]. split; [by apply deref_heapOf|].
  apply insert_non_empty.
Qed.

(** *** Lookups in the example tables *)

Lemma range_two (ks : list string) (k1 k2 : string) :
  ks ≡ₚ [k1; k2] → ks = [k1; k2] ∨ ks = [k2; k1].
Proof. intros Hp. symmetry in Hp. by apply Permutation_length_2_inv in Hp. Qed.

Lemma keys_tblChase :
  (map_to_list tblChase).*1 = ["com.example.a_CNAME"; "com.example.b_A"].
Proof. vm_compute. reflexivity. Qed.

Lemma keys_tblCycle :
  (map_to_list tblCycle).*1 = ["com.example.a_CNAME"; "com.example.b_CNAME"].
Proof. vm_compute. reflexivity. Qed.

Lemma chase_direct (ks : list string) :
  getRecord ks tblChase (QName qA) (Qtype qA) =
    inl (errRecordNotFound "a.example.com." TypeA).
Proof. vm_compute. reflexivity. Qed.

Lemma chase_first (ks : list string) :
  getRecord ks tblChase (QName qA) TypeCNAME = inr [aliasAB].
Proof. vm_compute. reflexivity. Qed.

Lemma chase_second (ks : list string) :
  ks ≡ₚ (map_to_list tblChase).*1 →
  getRecord ks tblChase "b.example.com." TypeANY = inr [hostB].
Proof.
  rewrite keys_tblChase. intros [->| ->]%range_two; vm_compute; reflexivity.
Qed.

Lemma cycle_direct (ks : list string) :
  getRecord ks tblCycle (QName qA) (Qtype qA) =
    inl (errRecordNotFound "a.example.com." TypeA).
Proof. vm_compute. reflexivity. Qed.

Lemma cycle_first (ks : list string) :
  getRecord ks tblCycle (QName qA) TypeCNAME = inr [aliasAB].
Proof. vm_compute. reflexivity. Qed.

Lemma cycle_at_a (ks : list string) :
  ks ≡ₚ (map_to_list tblCycle).*1 →
  getRecord ks tblCycle "a.example.com." TypeANY = inr [aliasAB].
Proof.
  rewrite keys_tblCycle. intros [->| ->]%range_two; vm_compute; reflexivity.
Qed.

Lemma cycle_at_b (ks : list string) :
  ks ≡ₚ (map_to_list tblCycle).*1 →
  getRecord ks tblCycle "b.example.com." TypeANY = inr [aliasBA].
Proof.
  rewrite keys_tblCycle. intros [->| ->]%range_two; vm_compute; reflexivity.
Qed.

(** *** The CNAME chase *)

(** C7.  In the zone [example.com.] whose table holds exactly
    [a.example.com. CNAME b.example.com.] and [b.example.com. A 10.0.0.9],
    the query for [a.example.com.], type A, is answered with the CNAME
    record first and the A record second, whatever the order of the ranges
    and with fuel for at least one [goto]. *)
Theorem cname_chase_answer (env : Env) (fuel : nat) (h : Heap) (z : Zone)
    (r : Request) :
  zoneName z = "example.com." →
  liveTable h z = tblChase →
  Opcode r = OpcodeQuery → Questions r = [qA] →
  rangesOver env tblChase →
  (1 ≤ fuel)%nat →
  ∃ m, HandleRequest env fuel h z r = Some (h, z, m) ∧
       Rcode m = RcodeSuccess ∧
       Answer m = [Some aliasAB; Some hostB].
Proof.
  intros Hz Ht Hop Hqs Hr Hfuel. destruct fuel as [|fuel]; [lia|].
  unfold HandleRequest, dispatch, replyQuestion, liveTable in *.
  rewrite Hop, Hqs, Ht.
  change (OpcodeQuery =? OpcodeQuery) with true. cbv iota.
  change (take 1 [qA]) with [qA].
  rewrite (queryLoop_chase _ _ _ _ _ _ _ _ _
             (errRecordNotFound "a.example.com." TypeA));
    [|by rewrite Hz|apply chase_direct|done].
  rewrite chase_eq, chase_first.
  rewrite chaseLoop_follow; [|done|by rewrite Hz].
  cbv beta iota.
  change (CNAME_Target aliasAB) with "b.example.com.".
  rewrite chase_eq, (chase_second _ (Hr 0%nat 2%nat)).
  rewrite chaseLoop_keep; [|done..].
  eexists. split; [reflexivity|]. by destruct (validTsig r).
Qed.

Lemma cycle_goes_on (env : Env) (fuel : nat) :
  rangesOver env tblCycle →
  ∀ hop m,
    chase env zone0 tblCycle qA 0 fuel hop "a.example.com." TypeANY m = None ∧
    chase env zone0 tblCycle qA 0 fuel hop "b.example.com." TypeANY m = None.
Proof.
  intros Hr. induction fuel as [|fuel IH]; intros hop m.
  - rewrite !chase_eq, (cycle_at_a _ (Hr _ _)), (cycle_at_b _ (Hr _ _)).
    by rewrite !chaseLoop_follow.
  - rewrite !chase_eq, (cycle_at_a _ (Hr _ _)), (cycle_at_b _ (Hr _ _)).
    rewrite !chaseLoop_follow; [|done..]. cbv beta iota.
    split; apply IH.
Qed.

(** C3, on the code.  In the zone [example.com.] with the table
    [a CNAME b], [b CNAME a], the query for [a.example.com.], type A,
    never gets its reply: whatever the fuel, the chase uses it up. *)
Theorem cname_cycle_never_answers (env : Env) (fuel : nat) (signed : bool) :
  rangesOver env tblCycle →
  HandleRequest env fuel (heapOf tblCycle) zone0 (query qA signed) = None.
Proof.
  intros Hr. unfold HandleRequest, dispatch.
  change (Opcode (query qA signed) =? OpcodeQuery) with true. cbv iota.
  rewrite (deref_heapOf tblCycle zone0 eq_refl).
  change (replyQuestion (query qA signed)) with [qA].
  rewrite (queryLoop_chase _ _ _ _ _ _ _ _ _
             (errRecordNotFound "a.example.com." TypeA));
    [|done|apply cycle_direct|done].
  rewrite chase_eq, cycle_first.
  rewrite chaseLoop_follow; [|done..]. cbv beta iota.
  destruct fuel as [|fuel]; [done|].
  change (CNAME_Target aliasAB) with "b.example.com.".
  by rewrite (proj2 (cycle_goes_on env fuel Hr _ _)).
Qed.

(** *** The example tables are tables updates build *)

Lemma tblFooBar_by_updates :
  updateNs [fooA; barA] qZone ∅ = (inr tt, tblFooBar).
Proof. vm_compute. reflexivity. Qed.

Lemma tblFooCNAME_by_updates :
  updateNs [fooCNAME] qZone ∅ = (inr tt, tblFooCNAME).
Proof. vm_compute. reflexivity. Qed.

Lemma tblWww_by_updates : updateNs [wwwA] qZone ∅ = (inr tt, tblWww).
Proof. vm_compute. reflexivity. Qed.

Lemma tblChase_by_updates :
  updateNs [aliasAB; hostB] qZone ∅ = (inr tt, tblChase).
Proof. vm_compute. reflexivity. Qed.

Lemma tblCycle_by_updates :
  updateNs [aliasAB; aliasBA] qZone ∅ = (inr tt, tblCycle).
Proof. vm_compute. reflexivity. Qed.

(** *** The claims on concrete records *)

Lemma envOf_ranges (t : Table) : rangesOver (envOf t) t.
Proof. intros i hop. reflexivity. Qed.

(** C2, on the code.  The update [www.example.com. A 10.0.0.1] builds the
    table [tblWww] from the empty table.  No record with the owner name
    [example.com.] is stored in it, yet adding
    [example.com. CNAME host.example.net.] is refused with "Records is
    exists", the table staying as it was: [hasRecords] finds the key
    "com.example.www_A", which starts with "com.example".  And after
    [foo.example.com. CNAME baz.example.com.] was added and deleted again,
    no record is stored at [foo.example.com.], yet adding
    [foo.example.com. A 10.0.0.1] is refused with "CNAME record is
    exists": the key of the emptied RRset is still in the table. *)
Theorem cname_refused_without_record_at_name :
  (updateNs [wwwA] qZone ∅ = (inr tt, tblWww) ∧
   recordAt tblWww (Name (Hdr apexCNAME)) = false ∧
   UpdateRecord apexCNAME qZone tblWww = (inl errRecordsIsExist, tblWww)) ∧
  (updateNs [fooCNAME; Samples.delFooCNAME] qZone ∅ =
     (inr tt, Samples.tblEmptied) ∧
   recordAt Samples.tblEmptied (Name (Hdr fooA)) = false ∧
   UpdateRecord fooA qZone Samples.tblEmptied =
     (inl errCNAMERecordIsExist, Samples.tblEmptied)).
Proof. repeat split; vm_compute; reflexivity. Qed.

Lemma duplicate_CNAME_witness :
  UpdateRecord fooCNAME qZone tblFooCNAME = (inl errRecordsIsExist, tblFooCNAME).
Proof.
  apply (@duplicate_CNAME_refused miekg tblFooCNAME fooCNAME qZone
           "com.example.foo_CNAME"); reflexivity.
Defined.

(** C5, as stated, fails: the update whose only RR has the owner name
    [foo..example.com.] reports no error, and the reply has rcode 0. *)
Lemma invalid_name_batch_succeeds :
  IsDomainName (Name (Hdr badA)) = false ∧
  ¬ (∃ e, err_of (updateQuestions [qZone] [badA] ∅) = Some e) ∧
  ∃ h z, HandleRequest (envOf ∅) 0 (heapOf ∅) zone0 (update [badA]) =
           Some (h, z, signed (envOf ∅) (mkMsg RcodeSuccess false [] [])).
Proof.
  split; [reflexivity|]. split.
  - intros [e He]. vm_compute in He. discriminate.
  - eexists _, _. vm_compute. reflexivity.
Qed.

Lemma invalid_name_witness :
  UpdateRecord badA qZone tblFoo = (inr tt, tblFoo) ∧
  updateNs [fooA; badA; barA] qZone ∅ = updateNs [fooA; barA] qZone ∅.
Proof.
  destruct (@invalid_name_ignored miekg badA qZone eq_refl) as [H1 H2].
  split; [apply H1|apply (H2 [fooA] [barA])].
Defined.

(** C6, as stated, fails: with only [www.example.com. A] stored, the ANY
    lookup of [example.com.] collects that record, the name filter drops
    it, and the lookup succeeds with an empty answer instead of signalling
    "Record not found". *)
Lemma empty_answer_instead_of_not_found :
  ¬ ((∃ n ty, getRecord (map_to_list tblWww).*1 tblWww (QName qApexANY)
                        (Qtype qApexANY) = inl (errRecordNotFound n ty)) ↔
     nameFiltered (map_to_list tblWww).*1 tblWww (QName qApexANY)
                  (Qtype qApexANY) = []).
Proof.
  intros [_ Hnf]. destruct Hnf as (n & ty & E); [vm_compute; reflexivity|].
  vm_compute in E. discriminate.
Qed.

Lemma not_found_witness :
  getRecord (map_to_list tblWww).*1 tblWww (QName qApexANY) (Qtype qApexANY) =
    inr [].
Proof.
  destruct (@not_found_before_name_filter miekg (map_to_list tblWww).*1 tblWww
              (QName qApexANY) (Qtype qApexANY)) as [_ Hempty]; [reflexivity|].
  apply (Hempty [rrString wwwA]); [reflexivity|done|].
  constructor; [|constructor]. exists wwwA. split; [reflexivity|].
  vm_compute. discriminate.
Defined.

Lemma cname_chase_witness :
  ∃ m, HandleRequest (envOf tblChase) 1 (heapOf tblChase) zone0
                     (query qA false) =
         Some (heapOf tblChase, zone0, m) ∧
       Rcode m = RcodeSuccess ∧
       Answer m = [Some aliasAB; Some hostB].
Proof.
  apply (cname_chase_answer (envOf tblChase) 1 (heapOf tblChase) zone0
           (query qA false)).
  - reflexivity.
  - by apply deref_heapOf.
  - reflexivity.
  - reflexivity.
  - apply envOf_ranges.
  - lia.
Defined.

Lemma cname_cycle_witness :
  HandleRequest (envOf tblCycle) 1000 (heapOf tblCycle) zone0 (query qA false) =
    None.
Proof. apply cname_cycle_never_answers, envOf_ranges. Defined.

Lemma axfr_witness :
  HandleRequest (envOf tblChase) 0 (heapOf tblChase) zone0 (query qAXFR false) =
    Some (heapOf tblChase, zone0, mkMsg RcodeNotAuth false [] []) ∧
  HandleRequest (envOf tblChase) 0 (heapOf tblChase) zone0 (query qAXFR true) =
    Some (heapOf tblChase, zone0,
          signed (envOf tblChase)
            (mkMsg RcodeSuccess true
                   ([soaRR zone0; (nsRR zone0).1; (nsRR zone0).2] ++
                    (Some <$> [aliasAB; hostB]) ++ [soaRR zone0])%list [])).
Proof.
  split.
  - apply (@axfr_gate_and_envelope miekg (envOf tblChase) 0 (heapOf tblChase)
             zone0 (query qAXFR false) qAXFR); reflexivity.
  - destruct (@axfr_gate_and_envelope miekg (envOf tblChase) 0
                (heapOf tblChase) zone0 (query qAXFR true) qAXFR
                eq_refl eq_refl eq_refl eq_refl) as (_ & Hsigned & _).
    apply (Hsigned tsigKey eq_refl [aliasAB; hostB]).
    vm_compute. repeat constructor.
Defined.

Lemma omit_witness :
  UpdateRecord delFooA qZone tblFoo =
    (inr tt, <[ "com.example.foo_A" := [rrString fooA2] ]> tblFoo).
Proof.
  destruct (@omit_removes_matching miekg tblFoo delFooA qZone
              "com.example.foo_A" eq_refl eq_refl eq_refl) as [_ Hpresent].
  destruct (Hpresent [rrString fooA; rrString fooA2]) as [Hr _].
  - reflexivity.
  - constructor; [by exists fooA|]. constructor; [by exists fooA2|constructor].
  - exact Hr.
Defined.

Lemma frame_witness :
  (UpdateRecord fooA qZone tblWww).2 !! "com.example.www_A" =
    tblWww !! "com.example.www_A".
Proof.
  apply (@single_record_frame miekg tblWww fooA qZone "com.example.www_A").
  - left. reflexivity.
  - vm_compute. discriminate.
Defined.

End Concrete.

(** * More of the code *)

Section PadMore.
Context `{DNSLibrary}.

Lemma UpdateRecord_delete (r : RR) (q : Question) :
  IsDomainName (Name (Hdr r)) = true →
  RClass (Hdr r) = ClassANY → Rdlength (Hdr r) = 0 →
  UpdateRecord r q = deleteRecord (Name (Hdr r)) (Rrtype (Hdr r)).
Proof. unfold UpdateRecord. by intros -> -> ->. Qed.

Lemma deleteRecords_lookup (domain prefix : string) (m : Table) :
  GetKeyDomain domain = inr prefix →
  ∀ k, (deleteRecords domain m).2 !! k =
         if HasPrefix k prefix then None else m !! k.
Proof.
  unfold deleteRecords, bind. intros -> k. simpl.
  rewrite map_lookup_filter. destruct (m !! k) as [vs|]; simpl.
  - destruct (HasPrefix k prefix); by case_guard.
  - by destruct (HasPrefix k prefix).
Qed.

(** X1.  The update RR that deletes all RRsets of a well-formed name
    (class ANY, type ANY, no record data) never fails; it removes exactly
    the entries whose key starts with the prefix of the name -- among them
    the RRset of the name for every type -- and leaves the other entries
    as they are; doing it again changes nothing. *)
Theorem subtree_delete (m : Table) (r : RR) (q : Question) (prefix : string) :
  RClass (Hdr r) = ClassANY → Rdlength (Hdr r) = 0 →
  Rrtype (Hdr r) = TypeANY →
  GetKeyDomain (Name (Hdr r)) = inr prefix →
  let m' := (UpdateRecord r q m).2 in
  err_of (UpdateRecord r q m) = None ∧
  (∀ k, m' !! k = if HasPrefix k prefix then None else m !! k) ∧
  (∀ t key, GetKey (Name (Hdr r)) t = inr key → m' !! key = None) ∧
  UpdateRecord r q m' = (inr tt, m').
Proof.
  intros Hc Hl Ht Hp.
  rewrite (UpdateRecord_delete _ _ (GetKeyDomain_valid _ _ Hp) Hc Hl), Ht.
  change (deleteRecord (Name (Hdr r)) TypeANY)
    with (deleteRecords (Name (Hdr r))).
  pose proof (deleteRecords_lookup _ _ m Hp) as Hlook.
  cbv zeta. split; [|split; [|split]].
  - unfold deleteRecords, bind, err_of. by rewrite Hp.
  - exact Hlook.
  - intros t key Hk. rewrite (GetKey_prefix _ _ t Hp) in Hk.
    injection Hk as <-. by rewrite Hlook, key_has_prefix.
  - set (m' := (deleteRecords (Name (Hdr r)) m).2) in *.
    unfold deleteRecords, bind. rewrite Hp. simpl.
    assert (filter (λ kv : string * list string, HasPrefix kv.1 prefix = false)
                   m' = m') as ->; [|done].
    apply map_eq. intros k. rewrite map_lookup_filter, Hlook.
    destruct (HasPrefix k prefix) eqn:Hk; [done|].
    destruct (m !! k); simpl; [|done]. case_guard; [done|congruence].
Qed.

(** X2.  After that delete, adding a CNAME at the same name is not
    refused: the table then holds the CNAME as the only record of its
    RRset. *)
Theorem subtree_delete_then_cname (m : Table) (del add : RR) (q : Question)
    (key : string) :
  RClass (Hdr del) = ClassANY → Rdlength (Hdr del) = 0 →
  Rrtype (Hdr del) = TypeANY →
  RClass (Hdr add) = ClassINET → Rrtype (Hdr add) = TypeCNAME →
  Name (Hdr add) = Name (Hdr del) →
  GetKey (Name (Hdr add)) TypeCNAME = inr key →
  UpdateRecord add q (UpdateRecord del q m).2 =
    (inr tt, <[key := [RR_String add]]> (UpdateRecord del q m).2).
Proof.
  intros Hc Hl Ht Hc' Ht' Hn Hk.
  destruct (GetKey_inv _ _ _ Hk) as (prefix & Hp & ->).
  assert (GetKeyDomain (Name (Hdr del)) = inr prefix) as Hpd by by rewrite <- Hn.
  rewrite (UpdateRecord_delete _ _ (GetKeyDomain_valid _ _ Hpd) Hc Hl), Ht.
  change (deleteRecord (Name (Hdr del)) TypeANY)
    with (deleteRecords (Name (Hdr del))).
  pose proof (deleteRecords_lookup _ _ m Hpd) as Hlook.
  set (m' := (deleteRecords (Name (Hdr del)) m).2) in *.
  rewrite (UpdateRecord_add _ _ (GetKeyDomain_valid _ _ Hp) Hc').
  rewrite (storeRecord_CNAME _ _ _ Ht' Hp).
  assert (existsb (λ key, HasPrefix key prefix) (map_to_list m').*1 = false)
    as ->.
  { apply not_true_is_false. rewrite existsb_keys. intros (k & [v Hv] & Hpre).
    by rewrite Hlook, Hpre in Hv. }
  cbv zeta. rewrite lookup_total_alt, Hlook, key_has_prefix. done.
Qed.

Lemma append_cancel_l (p a b : string) : p +:+ a = p +:+ b → a = b.
Proof.
  induction p as [|c p IH]; rewrite ?append_nil_l, ?append_cons; [done|].
  intros [= E]. by apply IH.
Qed.

(** X3.  The update RR that deletes one RRset (class ANY, a type other
    than ANY, no record data) never fails and removes the entry under the
    key of its name and type, whether it exists or not, and nothing else;
    after deleting the CNAME RRset of a name, a record of another type can
    be added there. *)
Theorem rrset_delete (m : Table) (del : RR) (q : Question) (key : string) :
  RClass (Hdr del) = ClassANY → Rdlength (Hdr del) = 0 →
  Rrtype (Hdr del) ≠ TypeANY →
  GetKey (Name (Hdr del)) (Rrtype (Hdr del)) = inr key →
  UpdateRecord del q m = (inr tt, delete key m) ∧
  (∀ add,
     Rrtype (Hdr del) = TypeCNAME →
     RClass (Hdr add) = ClassINET → Rrtype (Hdr add) ≠ TypeCNAME →
     Name (Hdr add) = Name (Hdr del) →
     err_of (UpdateRecord add q (delete key m)) = None).
Proof.
  intros Hc Hl Ht Hk.
  destruct (GetKey_inv _ _ _ Hk) as (prefix & Hp & ->).
  split.
  - rewrite (UpdateRecord_delete _ _ (GetKeyDomain_valid _ _ Hp) Hc Hl).
    unfold deleteRecord, bind.
    destruct (Z.eqb_spec (Rrtype (Hdr del)) TypeANY) as [|_]; [done|].
    by rewrite Hk.
  - intros add Hcn Hc' Ht' Hn. rewrite <- Hn in Hp.
    rewrite (UpdateRecord_add _ _ (GetKeyDomain_valid _ _ Hp) Hc').
    rewrite (storeRecord_other _ _ _ Ht' Hp), Hcn, lookup_delete_eq.
    cbv zeta. unfold err_of. by destruct (Contains _ _).
Qed.

Lemma UpdateRecord_keeps_keys (m : Table) (r : RR) (q : Question)
    (k : string) :
  RClass (Hdr r) ≠ ClassANY →
  is_Some (m !! k) → is_Some ((UpdateRecord r q m).2 !! k).
Proof.
  intros Hc. unfold UpdateRecord.
  destruct (IsDomainName (Name (Hdr r))); [|done].
  destruct (Z.eqb_spec (RClass (Hdr r)) ClassANY) as [Ha|_]; [done|].
  destruct (Z.eqb_spec (RClass (Hdr r)) ClassNONE) as [Hn|Hn].
  - destruct (Ttl (Hdr r) =? 0); [|done].
    unfold omitRecord, bind, get, put, ret, throw.
    repeat case_match; simpl; try done.
    rewrite lookup_insert_is_Some. intros Hk.
    match goal with |- ?a = ?b ∨ _ =>
      destruct (decide (a = b)); [by left|by right] end.
  - destruct (Z.eqb_spec (RClass (Hdr r)) ClassINET); [|done].
    unfold storeRecord, hasRecords, bind, get, put, ret, throw.
    repeat (case_match; simplify_eq/=); try done.
    all: rewrite lookup_insert_is_Some; intros Hk.
    all: match goal with |- ?a = ?b ∨ _ =>
           destruct (decide (a = b)); [by left|by right] end.
Qed.

(** X4.  Only an add puts a new key into the table and only a delete with
    class ANY takes one out: an update RR whose class is not IN leaves the
    table with a subset of its keys, one whose class is not ANY with a
    superset.  So deleting single RRs (class NONE) never changes the set of
    keys, even when it removes the last record of an RRset. *)
Theorem update_key_sets (m : Table) (r : RR) (q : Question) :
  (RClass (Hdr r) ≠ ClassINET → dom (UpdateRecord r q m).2 ⊆ dom m) ∧
  (RClass (Hdr r) ≠ ClassANY → dom m ⊆ dom (UpdateRecord r q m).2).
Proof.
  split; intros Hc k; rewrite !elem_of_dom.
  - unfold UpdateRecord.
    destruct (IsDomainName (Name (Hdr r))); [|done].
    destruct (Z.eqb_spec (RClass (Hdr r)) ClassANY) as [Ha|Ha].
    { destruct (Rdlength (Hdr r) =? 0); [apply deleteRecord_shrinks|done]. }
    destruct (Z.eqb_spec (RClass (Hdr r)) ClassNONE) as [Hn|Hn].
    { destruct (Ttl (Hdr r) =? 0); [apply omitRecord_shrinks|done]. }
    by destruct (Z.eqb_spec (RClass (Hdr r)) ClassINET).
  - by apply UpdateRecord_keeps_keys.
Qed.

End PadMore.

Section PadCompose.
Context `{DNSLibrary}.

(** X5.  An entry under the CNAME key of a name blocks every add of
    another type at that name for as long as the key is in the table,
    whatever its list holds: after an update RR of a class other than ANY
    -- a delete of single RRs, which can empty the list but keeps the key --
    the add is still refused with "CNAME record is exists". *)
Theorem cname_key_outlives_its_records (m : Table) (del add : RR)
    (q : Question) (ck : string) :
  RClass (Hdr del) ≠ ClassANY →
  GetKey (Name (Hdr add)) TypeCNAME = inr ck → is_Some (m !! ck) →
  RClass (Hdr add) = ClassINET → Rrtype (Hdr add) ≠ TypeCNAME →
  UpdateRecord add q (UpdateRecord del q m).2 =
    (inl errCNAMERecordIsExist, (UpdateRecord del q m).2).
Proof.
  intros Hd Hk Hin Hc Ht.
  destruct (GetKey_inv _ _ _ Hk) as (prefix & Hp & ->).
  destruct (UpdateRecord_keeps_keys m del q _ Hd Hin) as [vs Hvs].
  rewrite (UpdateRecord_add _ _ (GetKeyDomain_valid _ _ Hp) Hc).
  by rewrite (storeRecord_other _ _ _ Ht Hp), Hvs.
Qed.

Lemma omitLoop_error (rr : RR) (values acc : list string) (e : Error) :
  omitLoop rr values acc = inl e →
  ∃ v, v ∈ values ∧ NewRR v = None ∧ e = errNewRR v.
Proof.
  revert acc. induction values as [|v values IH]; intros acc; simpl; [done|].
  destruct (NewRR v) as [tmp|] eqn:Hv.
  - intros He. assert (∃ v', v' ∈ values ∧ NewRR v' = None ∧ e = errNewRR v')
      as (v' & Hin & Hnone & ->).
    { destruct (omitSame rr tmp); eauto. }
    exists v'. split; [by apply elem_of_cons; right|done].
  - intros [= <-]. exists v. split; [by apply elem_of_cons; left|done].
Qed.

(** X6.  The errors of one update RR.  An update RR that returns an error
    has left the table as it was, and its owner name is well formed.  The
    error is one of the two conflict errors when the RR is an add
    (class IN); otherwise the RR deletes one RR (class NONE, TTL 0) and the
    error is the parse error of a string stored in its RRset.  A delete
    with class ANY never fails, and no update RR reports a malformed name
    or a record that is not found. *)
Theorem update_errors (r : RR) (q : Question) (m m' : Table) (e : Error) :
  UpdateRecord r q m = (inl e, m') →
  m' = m ∧ IsDomainName (Name (Hdr r)) = true ∧
  ((RClass (Hdr r) = ClassINET ∧ ConflictExists e) ∨
   (RClass (Hdr r) = ClassNONE ∧ Ttl (Hdr r) = 0 ∧
    ∃ key values v,
      GetKey (Name (Hdr r)) (Rrtype (Hdr r)) = inr key ∧
      m !! key = Some values ∧ v ∈ values ∧ NewRR v = None ∧
      e = errNewRR v)).
Proof.
  intros Hr.
  assert (m' = m) as ->.
  { pose proof (UpdateRecord_error r q m e) as He. unfold err_of in He.
    rewrite Hr in He. simpl in He. by apply He. }
  split; [done|]. revert Hr. unfold UpdateRecord.
  destruct (IsDomainName (Name (Hdr r))) eqn:Hv; [|done].
  destruct (GetKeyDomain_total _ Hv) as [prefix Hp]. split; [done|].
  destruct (Z.eqb_spec (RClass (Hdr r)) ClassANY) as [Ha|Ha].
  { destruct (Rdlength (Hdr r) =? 0); [|done].
    unfold deleteRecord, deleteRecords, bind in Hr.
    rewrite ?(GetKey_prefix _ _ _ Hp), ?Hp in Hr.
    by destruct (Rrtype (Hdr r) =? TypeANY). }
  destruct (Z.eqb_spec (RClass (Hdr r)) ClassNONE) as [Hn|Hn].
  { destruct (Z.eqb_spec (Ttl (Hdr r)) 0) as [Httl|]; [|done].
    right. split; [done|]. split; [done|]. revert Hr.
    unfold omitRecord, bind. rewrite (GetKey_prefix _ _ _ Hp). simpl.
    destruct (m !! _) as [values|] eqn:Hm; [|done].
    destruct (omitLoop r values []) as [e'|new] eqn:Hloop; [|done].
    intros [= ->]. apply omitLoop_error in Hloop as (v & Hin & Hnone & ->).
    eauto 10. }
  destruct (Z.eqb_spec (RClass (Hdr r)) ClassINET) as [Hi|Hi]; [|done].
  left. split; [done|]. revert Hr.
  destruct (decide (Rrtype (Hdr r) = TypeCNAME)) as [Ht|Ht].
  - rewrite (storeRecord_CNAME _ _ _ Ht Hp).
    destruct (existsb _ _); [intros [= <-]; by right|].
    cbv zeta. by destruct (Contains _ _).
  - rewrite (storeRecord_other _ _ _ Ht Hp).
    destruct (m !! _); [intros [= <-]; by left|].
    cbv zeta. by destruct (Contains _ _).
Qed.

(** X7.  A batch stops at its first failing RR: when the loop over the
    update section returns an error, the RRs before the failing one were
    applied without error, the table is the one they built, and the error
    is the error of that RR on that table; the RRs after it were not
    looked at. *)
Theorem batch_stops_at_first_error (ns : list RR) (q : Question)
    (m m' : Table) (e : Error) :
  updateNs ns q m = (inl e, m') →
  ∃ pre r post,
    ns = (pre ++ r :: post)%list ∧
    updateNs pre q m = (inr tt, m') ∧
    UpdateRecord r q m' = (inl e, m').
Proof.
  revert m. induction ns as [|r ns IH]; intros m; simpl; [done|].
  unfold bind. destruct (UpdateRecord r q m) as [[e1|[]] m1] eqn:Hr.
  - intros [= -> ->]. exists [], r, ns.
    pose proof (UpdateRecord_error r q m e) as He. unfold err_of in He.
    rewrite Hr in He. simpl in He. rewrite He in Hr; [|done].
    rewrite He; done.
  - intros Hrest. destruct (IH m1 Hrest) as (pre & r' & post & -> & Hpre & Hr').
    exists (r :: pre), r', post. split; [done|]. split; [|done].
    simpl. unfold bind. by rewrite Hr.
Qed.

Lemma Contains_snoc (l : list string) (s : string) :
  Contains (l ++ [s]) s = true.
Proof.
  unfold Contains. rewrite existsb_app. simpl.
  by rewrite String.eqb_refl, orb_true_r.
Qed.

(** X8.  Adding twice is adding once, for every type but CNAME: an add of
    class IN whose type is not CNAME (and does not print as CNAME), done
    again on the table it left, returns what it returned the first time
    and leaves that table as it is. *)
Theorem add_twice (m : Table) (r : RR) (q : Question) :
  RClass (Hdr r) = ClassINET →
  Rrtype (Hdr r) ≠ TypeCNAME →
  Type_String (Rrtype (Hdr r)) ≠ Type_String TypeCNAME →
  UpdateRecord r q (UpdateRecord r q m).2 = UpdateRecord r q m.
Proof.
  intros Hc Ht Hts.
  destruct (IsDomainName (Name (Hdr r))) eqn:Hv;
    [|by rewrite !(UpdateRecord_invalid _ _ _ Hv)].
  destruct (GetKeyDomain_total _ Hv) as [prefix Hp].
  rewrite (UpdateRecord_add _ _ Hv Hc), !(storeRecord_other _ _ _ Ht Hp).
  destruct (m !! (prefix +:+ "_" +:+ Type_String TypeCNAME)) eqn:Hck.
  { simpl. by rewrite Hck. }
  cbv zeta. destruct (Contains _ _) eqn:Hdup.
  { simpl. by rewrite Hck, Hdup. }
  simpl. rewrite lookup_insert_ne.
  2:{ intros E. by apply append_cancel_l, append_cancel_l in E. }
  by rewrite Hck, lookup_total_insert_eq, Contains_snoc.
Qed.

(** X9.  What an add stored can be looked up: after an add (class IN)
    that returned no error, the string of the RR is in the RRset under the
    key of its name and type, and the lookup of that name and type
    collects it, for every order of the range. *)
Theorem added_record_is_stored (m : Table) (r : RR) (q : Question)
    (key : string) :
  RClass (Hdr r) = ClassINET →
  GetKey (Name (Hdr r)) (Rrtype (Hdr r)) = inr key →
  err_of (UpdateRecord r q m) = None →
  let m' := (UpdateRecord r q m).2 in
  RR_String r ∈ m' !!! key ∧
  ∀ keys, keys ≡ₚ (map_to_list m').*1 →
    ∃ matched,
      matchedRecords keys m' (Name (Hdr r)) (Rrtype (Hdr r)) = inr matched ∧
      RR_String r ∈ matched.
Proof.
  intros Hc Hk Hok. cbv zeta.
  destruct (GetKey_inv _ _ _ Hk) as (prefix & Hp & ->).
  set (key := prefix +:+ "_" +:+ Type_String (Rrtype (Hdr r))) in *.
  assert (RR_String r ∈ (UpdateRecord r q m).2 !!! key) as Hin.
  { revert Hok. rewrite (UpdateRecord_add _ _ (GetKeyDomain_valid _ _ Hp) Hc).
    assert (∀ l, Contains l (RR_String r) = true → RR_String r ∈ l) as Hcont.
    { intros l Hl. apply existsb_exists in Hl as (x & Hx & ->%String.eqb_eq).
      by apply list_elem_of_In. }
    destruct (decide (Rrtype (Hdr r) = TypeCNAME)) as [Ht|Ht].
    - rewrite (storeRecord_CNAME _ _ _ Ht Hp).
      destruct (existsb _ _); [done|]. cbv zeta. rewrite <- Ht. fold key.
      destruct (Contains _ _) eqn:Hdup; simpl; intros _; [by apply Hcont|].
      rewrite lookup_total_insert_eq. apply elem_of_app. right.
      by apply list_elem_of_singleton.
    - rewrite (storeRecord_other _ _ _ Ht Hp).
      destruct (m !! _); [done|]. cbv zeta. fold key.
      destruct (Contains _ _) eqn:Hdup; simpl; intros _; [by apply Hcont|].
      rewrite lookup_total_insert_eq. apply elem_of_app. right.
      by apply list_elem_of_singleton. }
  split; [done|]. intros keys Hkeys. unfold matchedRecords.
  destruct (Rrtype (Hdr r) =? TypeANY).
  - rewrite Hp. eexists. split; [done|].
    apply list_elem_of_In, in_flat_map. exists key. split.
    + apply list_elem_of_In, (range_key _ _ _ Hkeys).
      rewrite lookup_total_alt in Hin.
      destruct ((UpdateRecord r q m).2 !! key); [done|].
      by apply elem_of_nil in Hin.
    + unfold key at 1. rewrite key_has_prefix. by apply list_elem_of_In.
  - rewrite Hk. eauto.
Qed.

End PadCompose.

Section QueryMore.
Context `{DNSLibrary}.

Lemma restoreLoop_filter (n : string) (matched : list string)
    (parsed acc : list RR) :
  Forall2 (λ v rr, NewRR v = Some rr) matched parsed →
  restoreLoop n matched acc =
    inr (acc ++ List.filter
                  (λ rr, String.eqb (ToLower (Name (Hdr rr))) n) parsed)%list.
Proof.
  intros Hall. revert acc.
  induction Hall as [|v rr matched parsed Hv _ IH]; intros acc; simpl.
  - by rewrite app_nil_r.
  - rewrite Hv. destruct (String.eqb _ _); rewrite IH; [|done].
    by rewrite <- app_assoc.
Qed.

Lemma restoreLoop_error (n : string) (matched : list string) (acc : list RR) :
  ¬ restorable matched →
  ∃ v, v ∈ matched ∧ NewRR v = None ∧
       restoreLoop n matched acc = inl (errNewRR v).
Proof.
  revert acc. induction matched as [|v matched IH]; intros acc Hbad.
  - destruct Hbad. constructor.
  - simpl. destruct (NewRR v) as [tmp|] eqn:Hv.
    + assert (¬ restorable matched) as Hrest.
      { intros Hr. apply Hbad. constructor; [by rewrite Hv|done]. }
      assert (∀ acc', ∃ v', v' ∈ v :: matched ∧ NewRR v' = None ∧
                restoreLoop n matched acc' = inl (errNewRR v')) as Hany.
      { intros acc'. destruct (IH acc' Hrest) as (v' & Hin & Hn & Hr).
        exists v'. split; [by apply elem_of_cons; right|done]. }
      destruct (String.eqb _ _); apply Hany.
    + exists v. split; [by apply elem_of_cons; left|done].
Qed.

(** X10.  What the lookup returns once strings were collected.  When
    every collected string restores, the result is the list of the
    restored records whose owner name is the question name in lower case,
    in the order of the strings; when one of them does not restore, the
    lookup fails with the parse error of such a string and returns no
    record at all. *)
Theorem lookup_result (keys : list string) (t : Table) (qName : string)
    (qQtype : Z) (matched : list string) :
  matchedRecords keys t qName qQtype = inr matched → matched ≠ [] →
  (∀ parsed,
     Forall2 (λ v rr, NewRR v = Some rr) matched parsed →
     getRecord keys t qName qQtype =
       inr (List.filter
              (λ rr, String.eqb (ToLower (Name (Hdr rr))) (ToLower qName))
              parsed)) ∧
  (¬ restorable matched →
     ∃ v, v ∈ matched ∧ NewRR v = None ∧
          getRecord keys t qName qQtype = inl (errNewRR v)).
Proof.
  intros Hm Hne. unfold getRecord. rewrite Hm.
  destruct matched as [|v0 matched0]; [done|].
  change (length (v0 :: matched0) =? 0)%nat with false. cbv iota.
  split.
  - intros parsed Hall. by rewrite (restoreLoop_filter _ _ _ [] Hall).
  - apply restoreLoop_error.
Qed.

(** The records one stored string contributes to the result. *)
Lemma restoreLoop_flat (n : string) (matched : list string) (acc l : list RR) :
  restoreLoop n matched acc = inr l →
  restorable matched ∧
  l = (acc ++ flat_map
                (λ v, match NewRR v with
                      | Some tmp =>
                        if String.eqb (ToLower (Name (Hdr tmp))) n
                        then [tmp] else []
                      | None => []
                      end) matched)%list.
Proof.
  revert acc. induction matched as [|v matched IH]; intros acc; simpl.
  - intros [= <-]. split; [constructor|by rewrite app_nil_r].
  - destruct (NewRR v) as [tmp|] eqn:Hv; [|done].
    destruct (String.eqb _ _); intros Hr; apply IH in Hr as [Hall ->].
    + split; [constructor; [by rewrite Hv|done]|]. by rewrite <- app_assoc.
    + split; [constructor; [by rewrite Hv|done]|done].
Qed.

Lemma restoreLoop_restorable (n : string) (matched : list string)
    (acc : list RR) :
  restorable matched → ∃ l, restoreLoop n matched acc = inr l.
Proof.
  intros Hall. revert acc.
  induction Hall as [|v matched [tmp Hv] _ IH]; intros acc; simpl; [eauto|].
  rewrite Hv. destruct (String.eqb _ _); apply IH.
Qed.

(** X11.  The order in which Go ranges over the map does not decide
    whether a lookup succeeds nor which records it returns: for two orders
    of the keys, if the lookup returns records for one it returns a
    permutation of them for the other. *)
Theorem lookup_order_irrelevant (keys1 keys2 : list string) (t : Table)
    (qName : string) (qQtype : Z) (l1 : list RR) :
  keys1 ≡ₚ keys2 →
  getRecord keys1 t qName qQtype = inr l1 →
  ∃ l2, getRecord keys2 t qName qQtype = inr l2 ∧ l1 ≡ₚ l2.
Proof.
  intros Hkeys. unfold getRecord.
  destruct (matchedRecords keys1 t qName qQtype) as [e|m1] eqn:H1; [done|].
  assert (∃ m2, matchedRecords keys2 t qName qQtype = inr m2 ∧ m1 ≡ₚ m2)
    as (m2 & -> & Hperm).
  { revert H1. unfold matchedRecords. destruct (qQtype =? TypeANY).
    - destruct (GetKeyDomain qName); [done|]. intros [= <-].
      eexists. split; [done|]. by apply Permutation_flat_map.
    - destruct (GetKey qName qQtype); [done|]. intros [= <-]. eauto. }
  rewrite <- (Permutation_length Hperm).
  destruct (length m1 =? 0)%nat; [done|]. intros Hr.
  apply restoreLoop_flat in Hr as [Hall ->].
  assert (restorable m2) as Hall2.
  { unfold restorable in *. by rewrite <- Hperm. }
  destruct (restoreLoop_restorable (ToLower qName) m2 [] Hall2) as [l2 Hl2].
  exists l2. split; [done|].
  apply restoreLoop_flat in Hl2 as [_ ->]. simpl.
  by apply Permutation_flat_map.
Qed.

(** ** The chase and its fuel *)

Lemma chaseLoop_appends (goto : string → Msg → option Msg) (z : Zone)
    (q : Question) (P : Msg → Msg → Prop) :
  (∀ m, P m m) →
  (∀ m rr m', wantedType q (Rrtype (Hdr rr)) = true →
     P (setAnswer m (Answer m ++ [Some rr])%list) m' → P m m') →
  (∀ target m m', goto target m = Some m' → P m m') →
  ∀ rrs m m', chaseLoop goto z q rrs m = Some m' → P m m'.
Proof.
  intros Hrefl Hstep Hgoto. induction rrs as [|rr rrs IH]; intros m m'; simpl.
  - intros [= <-]. apply Hrefl.
  - destruct (wantedType q (Rrtype (Hdr rr))) eqn:Hw; simpl; [|apply IH].
    destruct (_ && _).
    + intros Hg. eapply Hstep; [done|]. by eapply Hgoto.
    + intros Hl. eapply Hstep; [done|]. by apply IH.
Qed.

Lemma extendsReply_refl (q : Question) (m : Msg) : extendsReply q m m.
Proof.
  repeat split. exists []. split; [by rewrite app_nil_r|constructor].
Qed.

Lemma extendsReply_step (q : Question) (m m' : Msg) (rr : RR) :
  wantedType q (Rrtype (Hdr rr)) = true →
  extendsReply q (setAnswer m (Answer m ++ [Some rr])%list) m' →
  extendsReply q m m'.
Proof.
  intros Hw (Hc & Ha & He & more & Hans & Hall). simpl in *.
  repeat split; try done. exists (rr :: more). split.
  - by rewrite Hans, <- app_assoc.
  - constructor; [|done]. unfold wantedType in Hw.
    apply orb_true_iff in Hw as [Hw|Hw]; apply Z.eqb_eq in Hw; auto.
Qed.

(** X12.  The CNAME chase only adds answers: the reply it leaves has the
    rcode, the authoritative flag and the additional section it found, and
    its answer section is the one it found followed by records that are
    CNAMEs or of the type of the question. *)
Theorem chase_only_appends (env : Env) (z : Zone) (t : Table) (q : Question)
    (i fuel hop : nat) (qName : string) (qQtype : Z) (m m' : Msg) :
  chase env z t q i fuel hop qName qQtype m = Some m' →
  extendsReply q m m'.
Proof.
  revert hop qName qQtype m m'.
  induction fuel as [|fuel IH]; intros hop qName qQtype m m'; rewrite chase_eq;
    (destruct (getRecord _ _ _ _) as [e|rrs];
       [intros [= <-]; apply extendsReply_refl|]);
    apply (chaseLoop_appends _ z q (extendsReply q)).
  - apply extendsReply_refl.
  - intros m0 rr m1. apply extendsReply_step.
  - done.
  - apply extendsReply_refl.
  - intros m0 rr m1. apply extendsReply_step.
  - intros target m0 m1. apply IH.
Qed.

Lemma chaseLoop_mono (g1 g2 : string → Msg → option Msg) (z : Zone)
    (q : Question) (rrs : list RR) (m res : Msg) :
  (∀ target m res, g1 target m = Some res → g2 target m = Some res) →
  chaseLoop g1 z q rrs m = Some res → chaseLoop g2 z q rrs m = Some res.
Proof.
  intros Hg. revert m. induction rrs as [|rr rrs IH]; intros m; simpl; [done|].
  destruct (negb _); [apply IH|]. destruct (_ && _); [apply Hg|apply IH].
Qed.

Lemma chase_mono (env : Env) (z : Zone) (t : Table) (q : Question)
    (i fuel fuel' hop : nat) (qName : string) (qQtype : Z) (m res : Msg) :
  (fuel ≤ fuel')%nat →
  chase env z t q i fuel hop qName qQtype m = Some res →
  chase env z t q i fuel' hop qName qQtype m = Some res.
Proof.
  revert fuel' hop qName qQtype m res.
  induction fuel as [|fuel IH]; intros fuel' hop qName qQtype m res Hle;
    rewrite !(chase_eq _ _ _ _ _ _ hop);
    (destruct (getRecord _ _ _ _) as [e|rrs]; [done|]);
    apply chaseLoop_mono; intros target m0 res0; [done|].
  destruct fuel' as [|fuel']; [lia|]. apply IH. lia.
Qed.

Lemma queryLoop_mono (env : Env) (fuel fuel' : nat) (z : Zone) (t : Table)
    (invalidTsig : bool) (i : nat) (qs : list Question) (m res : Msg) :
  (fuel ≤ fuel')%nat →
  queryLoop env fuel z t invalidTsig i qs m = Some res →
  queryLoop env fuel' z t invalidTsig i qs m = Some res.
Proof.
  intros Hle. revert i m. induction qs as [|q qs IH]; intros i m; [done|].
  cbn [queryLoop]. cbv zeta.
  destruct (_ && (Qtype q =? TypeNS)); [destruct (nsRR z); apply IH|].
  destruct (_ && (Qtype q =? TypeSOA)); [apply IH|].
  destruct (_ && (Qtype q =? TypeAXFR));
    [destruct invalidTsig; [done|destruct (axfrRecord _ _ _); apply IH]|].
  destruct (getRecord _ _ _ _); [|apply IH].
  destruct (negb _); [|apply IH].
  destruct (chase env z t q i fuel _ _ _ _) as [m1|] eqn:Hc; [|done].
  rewrite (chase_mono _ _ _ _ _ _ fuel' _ _ _ _ _ Hle Hc). apply IH.
Qed.

(** The fuel is a bound of the model and of nothing in the code: a reply
    the handler gives with some fuel is the reply it gives with any
    larger fuel. *)
Lemma HandleRequest_fuel_mono (env : Env) (fuel fuel' : nat) (h : Heap)
    (z : Zone) (r : Request) (res : Heap * Zone * Msg) :
  (fuel ≤ fuel')%nat →
  HandleRequest env fuel h z r = Some res →
  HandleRequest env fuel' h z r = Some res.
Proof.
  intros Hle. unfold HandleRequest, dispatch.
  destruct (Opcode r =? OpcodeQuery); [|done].
  destruct (queryLoop env fuel _ _ _ _ _ _) as [m|] eqn:Hq; [|done].
  by rewrite (queryLoop_mono _ _ _ _ _ _ _ _ _ _ Hle Hq).
Qed.

Lemma axfrLoop_error (matched : list string) (acc : list (option RR)) :
  ¬ restorable matched → ∃ v, axfrLoop matched acc = inl (errNewRR v).
Proof.
  revert acc. induction matched as [|v matched IH]; intros acc Hbad.
  - destruct Hbad. constructor.
  - simpl. destruct (NewRR v) as [tmp|] eqn:Hv; [|eauto].
    apply IH. intros Hr. apply Hbad. constructor; [by rewrite Hv|done].
Qed.

(** X18.  A zone transfer of a table with a string that does not restore:
    the request has a valid TSIG and its question is an AXFR for the zone
    name, yet the reply has an empty answer section -- not even the SOA --
    with rcode 0 and the authoritative flag set. *)
Theorem axfr_unrestorable (env : Env) (fuel : nat) (h : Heap) (z : Zone)
    (r : Request) (q : Question) (tsig : TSIG) :
  Opcode r = OpcodeQuery → Questions r = [q] →
  String.eqb (ToLower (QName q)) (ToLower (zoneName z)) = true →
  Qtype q = TypeAXFR →
  validTsig r = Some tsig →
  ¬ restorable (allRecords (RangeOrder env 0 0) (liveTable h z)) →
  HandleRequest env fuel h z r =
    Some (h, z,
          SetTsig (mkMsg RcodeSuccess true [] []) (Id r) (TsigName tsig)
                  (Algorithm tsig) (Fudge tsig) (NowTsig env)).
Proof.
  intros Hop Hqs Hz Hty Htsig Hbad.
  unfold HandleRequest, dispatch, replyQuestion.
  rewrite Hop, Hqs, Htsig. simpl. rewrite Hz, Hty. simpl.
  unfold axfrRecord. simpl. unfold liveTable, allRecords in Hbad.
  match goal with |- context [axfrLoop ?a ?b] =>
    destruct (axfrLoop_error a b Hbad) as [v ->] end.
  done.
Qed.

End QueryMore.

Section UpdateMore.
Context `{DNSLibrary}.

(** X15.  An update is checked before anything is changed.  When the zone
    has an allow-CIDR and the remote address is not inside it, the reply
    has rcode Refused, whether the TSIG is valid or not; otherwise, without
    a valid TSIG, the reply is rcode NotAuth with empty sections.  In both
    cases heap and zone are returned as they were. *)
Theorem update_gate (env : Env) (fuel : nat) (h : Heap) (z : Zone)
    (r : Request) :
  Opcode r = OpcodeUpdate →
  (allowCIDR z ≠ "" → RemoteIn r (allowCIDR z) = false →
     ∃ m, HandleRequest env fuel h z r = Some (h, z, m) ∧
          Rcode m = RcodeRefused ∧ Answer m = []) ∧
  (allowCIDR z = "" ∨ RemoteIn r (allowCIDR z) = true →
   validTsig r = None →
     HandleRequest env fuel h z r =
       Some (h, z, mkMsg RcodeNotAuth false [] [])).
Proof.
  intros Hop. unfold HandleRequest, dispatch. rewrite Hop.
  change (OpcodeUpdate =? OpcodeQuery) with false.
  change (OpcodeUpdate =? OpcodeUpdate) with true. cbv iota.
  split.
  - intros Hcidr Hout. rewrite Hout.
    destruct (String.eqb_spec (allowCIDR z) ""); [done|]. simpl.
    eexists. split; [done|]. by destruct (validTsig r).
  - intros Hin Htsig. rewrite Htsig.
    destruct Hin as [-> | ->]; [done|]. by rewrite andb_false_r.
Qed.

(** X16.  An update that passes the checks and whose batch returns no
    error, when the file is written without error: the reply has rcode 0,
    the zone has a map of its own at a location that was not in use, this
    map is the table the batch built from the live table, the
    modification time is the time of the write, and nothing else of the
    zone has changed.  The map the zone had holds the same table. *)
Theorem update_installs_result (env : Env) (fuel : nat) (h : Heap) (z : Zone)
    (r : Request) (tsig : TSIG) (t' : Table) :
  Opcode r = OpcodeUpdate →
  allowCIDR z = "" ∨ RemoteIn r (allowCIDR z) = true →
  validTsig r = Some tsig →
  updateQuestions (Questions r) (Ns r) (liveTable h z) = (inr tt, t') →
  CreateOK env = true → WriteOK env = true →
  FlushOK env = true → CloseOK env = true →
  ∃ h' l,
    HandleRequest env fuel h z r =
      Some (h',
            mkZone (zoneName z) (nsName z) (localAddr z) (filename z)
                   (Now env) l (allowCIDR z),
            SetTsig SetReply (Id r) (TsigName tsig) (Algorithm tsig)
                    (Fudge tsig) (NowTsig env)) ∧
    (l ∉ dom h) ∧ l ≠ records z ∧
    deref h' l = t' ∧ deref h' (records z) = t' ∧
    ∀ l', l' ≠ l → l' ≠ records z → h' !! l' = h !! l'.
Proof.
  intros Hop Hin Htsig Hbatch Hc Hw Hf Hcl.
  unfold HandleRequest, dispatch, writeDB, onPad, NewPad, Records.
  rewrite Hop, Htsig, Hc, Hw, Hf, Hcl.
  change (OpcodeUpdate =? OpcodeQuery) with false.
  change (OpcodeUpdate =? OpcodeUpdate) with true. cbv iota.
  assert (negb (allowCIDR z =? "")%string &&
          negb (RemoteIn r (allowCIDR z)) = false) as ->.
  { destruct Hin as [-> | ->]; [done|]. by rewrite andb_false_r. }
  unfold liveTable in Hbatch. simpl. rewrite Hbatch. simpl.
  set (h1 := <[records z := t']> h).
  pose proof (is_fresh (dom h1)) as Hfresh. set (l := fresh (dom h1)) in *.
  unfold h1 in Hfresh. rewrite dom_insert_L in Hfresh.
  exists (<[l := deref h1 (records z)]> h1), l.
  assert (deref h1 (records z) = t') as Hd.
  { unfold deref, h1. by rewrite lookup_insert_eq. }
  assert (l ≠ records z) as Hne.
  { intros E. apply Hfresh, elem_of_union. left. by apply elem_of_singleton. }
  split; [done|]. split.
  { intros Hl. apply Hfresh, elem_of_union. by right. }
  split; [done|]. split; [|split].
  - unfold deref at 1. by rewrite lookup_insert_eq.
  - unfold deref at 1. by rewrite lookup_insert_ne.
  - intros l' Hl Hr. unfold h1. by rewrite !lookup_insert_ne.
Qed.

(** X17.  An update whose batch returns no error but whose file cannot
    be written: when creating, writing or flushing fails the reply has
    rcode Refused; when only closing the file fails the reply has rcode 0.
    In both cases the zone keeps its map location and its modification
    time, and that map holds the table the batch built. *)
Theorem update_write_failure (env : Env) (fuel : nat) (h : Heap) (z : Zone)
    (r : Request) (tsig : TSIG) (t' : Table) :
  Opcode r = OpcodeUpdate →
  allowCIDR z = "" ∨ RemoteIn r (allowCIDR z) = true →
  validTsig r = Some tsig →
  updateQuestions (Questions r) (Ns r) (liveTable h z) = (inr tt, t') →
  let reply c :=
    SetTsig (mkMsg c false [] []) (Id r) (TsigName tsig) (Algorithm tsig)
            (Fudge tsig) (NowTsig env) in
  (CreateOK env && WriteOK env && FlushOK env = false →
     HandleRequest env fuel h z r =
       Some (<[records z := t']> h, z, reply RcodeRefused)) ∧
  (CreateOK env && WriteOK env && FlushOK env = true → CloseOK env = false →
     HandleRequest env fuel h z r =
       Some (<[records z := t']> h, z, reply RcodeSuccess)) ∧
  liveTable (<[records z := t']> h) z = t'.
Proof.
  intros Hop Hin Htsig Hbatch. cbv zeta.
  assert (∀ io,
    (if negb (CreateOK env) then (Some errCreate, <[records z := t']> h, z)
     else if negb (WriteOK env) then (Some errWrite, <[records z := t']> h, z)
     else if negb (FlushOK env) then (Some errFlush, <[records z := t']> h, z)
     else io) =
    if CreateOK env && WriteOK env && FlushOK env then io
    else (if negb (CreateOK env) then (Some errCreate, <[records z := t']> h, z)
          else if negb (WriteOK env)
               then (Some errWrite, <[records z := t']> h, z)
               else (Some errFlush, <[records z := t']> h, z))) as Hio.
  { intros io. by destruct (CreateOK env), (WriteOK env), (FlushOK env). }
  unfold HandleRequest, dispatch, writeDB, onPad, NewPad, Records.
  rewrite Hop, Htsig.
  change (OpcodeUpdate =? OpcodeQuery) with false.
  change (OpcodeUpdate =? OpcodeUpdate) with true. cbv iota.
  assert (negb (allowCIDR z =? "")%string &&
          negb (RemoteIn r (allowCIDR z)) = false) as ->.
  { destruct Hin as [-> | ->]; [done|]. by rewrite andb_false_r. }
  unfold liveTable in *. simpl. rewrite Hbatch. simpl. rewrite Hio.
  split; [|split].
  - intros ->. by destruct (CreateOK env), (WriteOK env).
  - by intros -> ->.
  - unfold deref. by rewrite lookup_insert_eq.
Qed.

End UpdateMore.

(** ** The database file *)

Lemma readLoop_values (vs : list Dic) (t : Table) :
  readLoop (Value <$> vs) t =
    (None, foldl (λ t v, <[Domain v := DicRecords v]> t) t vs).
Proof. revert t. induction vs as [|v vs IH]; intros t; simpl; [done|apply IH]. Qed.

Lemma readLoop_malformed (vs : list Dic) (rest : list Decoded) (t : Table) :
  readLoop ((Value <$> vs) ++ Malformed :: rest)%list t =
    (Some errDecode, (readLoop (Value <$> vs) t).2).
Proof. revert t. induction vs as [|v vs IH]; intros t; simpl; [done|apply IH]. Qed.

Lemma read_other (vs : list Dic) (t : Table) (k : string) :
  (∀ v, v ∈ vs → Domain v ≠ k) →
  foldl (λ t v, <[Domain v := DicRecords v]> t) t vs !! k = t !! k.
Proof.
  revert t. induction vs as [|v vs IH]; intros t Hk; simpl; [done|].
  rewrite IH.
  - apply lookup_insert_ne, Hk, elem_of_cons. by left.
  - intros v' Hv'. apply Hk, elem_of_cons. by right.
Qed.

Lemma read_entries (keys : list string) (content t : Table) (k : string) :
  foldl (λ t v, <[Domain v := DicRecords v]> t) t (dbEntries keys content)
    !! k =
  if decide (k ∈ keys) then Some (content !!! k) else t !! k.
Proof.
  revert t. induction keys as [|k0 keys IH]; intros t; simpl; [done|].
  change ((λ k, mkDic k (content !!! k)) <$> keys)
    with (dbEntries keys content).
  rewrite IH. destruct (decide (k ∈ keys)) as [Hin|Hout].
  - rewrite decide_True; [done|]. apply elem_of_cons. by right.
  - destruct (decide (k = k0)) as [->|Hne].
    + rewrite decide_True; [|apply elem_of_cons; by left].
      by rewrite lookup_insert_eq.
    + rewrite decide_False; [by rewrite lookup_insert_ne|].
      intros [?|?]%elem_of_cons; done.
Qed.

(** X19.  What [writeDB] writes, [ReadDB] reads back: a zone made by
    [New] has an empty map of its own and the modification time of the
    file, and reading into it the values that [writeDB] marshals for a
    table gives that table, without error, whatever the order in which the
    table was ranged over. *)
Theorem database_round_trip (keys : list string) (content : Table) (h : Heap)
    (mt : Z) (zn ns file addr cidr : string) :
  keys ≡ₚ (map_to_list content).*1 →
  ∃ h1 z1,
    New (Some mt) zn ns file addr cidr h = Some (h1, z1) ∧
    liveTable h1 z1 = ∅ ∧ mtime z1 = mt ∧ (records z1 ∉ dom h) ∧
    ReadDB (Some (Value <$> dbEntries keys content)) (liveTable h1 z1) =
      (None, content).
Proof.
  intros Hkeys. eexists _, _. split; [reflexivity|]. simpl.
  assert (liveTable (<[fresh (dom h) := ∅]> h)
            (mkZone zn ns addr file mt (fresh (dom h)) cidr) = ∅) as ->.
  { unfold liveTable, deref. simpl. by rewrite lookup_insert_eq. }
  split; [done|]. split; [done|]. split; [apply is_fresh|].
  rewrite readLoop_values. f_equal. apply map_eq. intros k.
  rewrite read_entries. destruct (decide (k ∈ keys)) as [Hin|Hout].
  - apply (range_key _ _ _ Hkeys) in Hin as [vs Hvs].
    by rewrite (lookup_total_correct _ _ _ Hvs).
  - rewrite lookup_empty. symmetry. apply eq_None_not_Some.
    intros Hk. by apply Hout, (range_key _ _ _ Hkeys).
Qed.

(** X20.  [ReadDB] writes every value it decodes into the table at once.
    Without a malformed value it returns no error; a key that no value
    names keeps its list, and a key that values name gets the records of
    the last of them.  A malformed value stops the reading with an error
    and leaves in the table what was read before it; a file that cannot be
    opened leaves the table as it was. *)
Theorem read_db_entries (vs : list Dic) (t : Table) :
  let t' := (ReadDB (Some (Value <$> vs)) t).2 in
  (ReadDB (Some (Value <$> vs)) t).1 = None ∧
  (∀ k, (∀ v, v ∈ vs → Domain v ≠ k) → t' !! k = t !! k) ∧
  (∀ pre v post,
     vs = (pre ++ v :: post)%list →
     (∀ v', v' ∈ post → Domain v' ≠ Domain v) →
     t' !! Domain v = Some (DicRecords v)) ∧
  (∀ rest,
     ReadDB (Some ((Value <$> vs) ++ Malformed :: rest)%list) t =
       (Some errDecode, t')) ∧
  ReadDB None t = (Some errOpen, t).
Proof.
  cbv zeta. unfold ReadDB. rewrite readLoop_values. simpl.
  split; [done|]. split; [apply read_other|]. split; [|split; [|done]].
  - intros pre v post -> Hlast. rewrite foldl_app. simpl.
    by rewrite (read_other post _ _ Hlast), lookup_insert_eq.
  - intros rest. by rewrite readLoop_malformed, readLoop_values.
Qed.

(** ** [main.go] *)

(** X21.  The server accepts every message whose header carries the
    opcode of an update, whatever the other bits of the flags word are;
    a message with another opcode gets the verdict of the library's
    default.  The flags word is the QR bit, four bits of opcode and eleven
    lower bits. *)
Theorem update_messages_accepted (default : Header → MsgAcceptAction)
    (dh : Header) (qr op low : Z) :
  0 ≤ qr → 0 ≤ op < 16 → 0 ≤ low < 2 ^ 11 →
  Bits dh = qr * 2 ^ 15 + op * 2 ^ 11 + low →
  MsgAcceptFunc default dh =
    if op =? OpcodeUpdate then MsgAccept else default dh.
Proof.
  intros Hqr Hop Hlow Hbits. unfold MsgAcceptFunc.
  change 15 with (Z.ones 4). rewrite Z.land_ones by lia.
  rewrite Z.shiftr_div_pow2 by lia. rewrite Hbits.
  replace (qr * 2 ^ 15 + op * 2 ^ 11 + low)
    with ((qr * 16 + op) * 2 ^ 11 + low) by lia.
  rewrite Z.div_add_l by lia. rewrite (Z.div_small low) by lia.
  rewrite Z.add_0_r, Z.add_comm, Z.mod_add by lia.
  by rewrite Z.mod_small by lia.
Qed.

Section CodecMore.
Context `{DNSLibrary}.

(** X22.  The serial of the synthesized SOA is the modification time as a
    signed 32-bit integer: it is the time itself while that fits, it
    always lies in the 32-bit range, and two zones of the same name whose
    times differ by a multiple of 2^32 have the same SOA. *)
Theorem soa_serial (z z' : Zone) :
  (- 2 ^ 31 ≤ int32 (mtime z) < 2 ^ 31) ∧
  (- 2 ^ 31 ≤ mtime z < 2 ^ 31 → int32 (mtime z) = mtime z) ∧
  (zoneName z = zoneName z' → (mtime z - mtime z') mod 2 ^ 32 = 0 →
   soaRR z = soaRR z').
Proof.
  unfold int32. split; [|split].
  - pose proof (Z.mod_pos_bound (mtime z + 2 ^ 31) (2 ^ 32)). lia.
  - intros Hr. rewrite Z.mod_small; lia.
  - intros Hn Hm. unfold soaRR, int32. rewrite Hn. do 4 f_equal.
    pose proof (Z.div_mod (mtime z - mtime z') (2 ^ 32)) as Hd.
    rewrite Hm in Hd.
    replace (mtime z + 2 ^ 31)
      with (mtime z' + 2 ^ 31 + (mtime z - mtime z') / 2 ^ 32 * 2 ^ 32)
      by lia.
    by rewrite Z.mod_add by lia.
Qed.

Lemma lower_ascii_idem (c : ascii) : lower_ascii (lower_ascii c) = lower_ascii c.
Proof. destruct c as [[] [] [] [] [] [] [] []]; reflexivity. Qed.

Lemma ToLower_idem (s : string) : ToLower (ToLower s) = ToLower s.
Proof.
  induction s as [|c s IH]; simpl; [done|]. by rewrite lower_ascii_idem, IH.
Qed.

Lemma ToLower_append (a b : string) :
  ToLower (a +:+ b) = ToLower a +:+ ToLower b.
Proof.
  induction a as [|c a IH]; rewrite ?append_nil_l, ?append_cons; simpl;
    [done|].
  by rewrite append_cons, IH.
Qed.

Lemma ToLower_Join (l : list string) :
  ToLower (Join l ".") = Join (ToLower <$> l) ".".
Proof.
  unfold Join. induction l as [|a [|b l] IH]; [done..|].
  change (String.concat "." (a :: b :: l))
    with (a +:+ "." +:+ String.concat "." (b :: l)).
  change (String.concat "." (ToLower <$> a :: b :: l))
    with (ToLower a +:+ "." +:+ String.concat "." (ToLower <$> b :: l)).
  by rewrite !ToLower_append, IH.
Qed.

Lemma ToLower_rev (l : list string) :
  ToLower <$> rev l = rev (ToLower <$> l).
Proof.
  induction l as [|a l IH]; simpl; [done|]. by rewrite fmap_app, IH.
Qed.

(** X23.  The key of a name does not depend on the case of its letters:
    two well-formed names whose labels agree up to case have the same key
    for every type, and the prefix of a name is in lower case (the type
    mnemonic after the underscore is not changed). *)
Theorem key_ignores_case (d1 d2 : string) (t : Z) :
  IsDomainName d1 = true → IsDomainName d2 = true →
  ToLower <$> SplitDomainName d1 = ToLower <$> SplitDomainName d2 →
  GetKey d1 t = GetKey d2 t ∧
  ∃ prefix, GetKeyDomain d1 = inr prefix ∧ ToLower prefix = prefix ∧
            GetKey d1 t = inr (prefix +:+ "_" +:+ Type_String t).
Proof.
  intros H1 H2 Hl.
  assert (∀ d, IsDomainName d = true →
               GetKeyDomain d =
                 inr (Join (rev (ToLower <$> SplitDomainName d)) ".")) as Hk.
  { intros d Hd. unfold GetKeyDomain. rewrite Hd. simpl.
    by rewrite ToLower_Join, ToLower_rev. }
  split.
  - unfold GetKey. by rewrite (Hk _ H1), (Hk _ H2), Hl.
  - eexists. split; [apply (Hk _ H1)|]. split.
    + rewrite <- ToLower_rev, <- ToLower_Join. apply ToLower_idem.
    + apply GetKey_prefix, (Hk _ H1).
Qed.

End CodecMore.

(** ** The further properties on concrete records *)
Section ConcreteMore.
Import Miekg Examples Samples.

Lemma subtree_delete_witness :
  let del := delAll "foo.example.com." in
  let m' := (UpdateRecord del qZone tblMixed).2 in
  err_of (UpdateRecord del qZone tblMixed) = None ∧
  m' !! "com.example.foo_A" = None ∧
  m' !! "com.example.www_A" = tblMixed !! "com.example.www_A" ∧
  UpdateRecord del qZone m' = (inr tt, m').
Proof.
  destruct (@subtree_delete miekg tblMixed (delAll "foo.example.com.") qZone
              "com.example.foo" eq_refl eq_refl eq_refl eq_refl)
    as (Hok & Hlook & Hsets & Hagain).
  split; [exact Hok|]. split; [exact (Hsets TypeA _ eq_refl)|].
  split; [exact (Hlook "com.example.www_A")|exact Hagain].
Defined.

Lemma subtree_delete_then_cname_witness :
  let m' := (UpdateRecord (delAll "foo.example.com.") qZone tblMixed).2 in
  UpdateRecord fooCNAME qZone m' =
    (inr tt, <[ "com.example.foo_CNAME" := [rrString fooCNAME] ]> m').
Proof.
  apply (@subtree_delete_then_cname miekg tblMixed (delAll "foo.example.com.")
           fooCNAME qZone "com.example.foo_CNAME"); reflexivity.
Defined.

Lemma rrset_delete_witness :
  UpdateRecord (delRRset "foo.example.com." TypeCNAME) qZone tblFooCNAME =
    (inr tt, delete "com.example.foo_CNAME" tblFooCNAME) ∧
  err_of (UpdateRecord fooA qZone
            (delete "com.example.foo_CNAME" tblFooCNAME)) = None.
Proof.
  destruct (@rrset_delete miekg tblFooCNAME
              (delRRset "foo.example.com." TypeCNAME) qZone
              "com.example.foo_CNAME" eq_refl eq_refl) as [Hdel Hadd];
    [done|reflexivity|].
  split; [exact Hdel|]. apply (Hadd fooA); [reflexivity..|done|reflexivity].
Defined.

Lemma update_key_sets_witness :
  dom (UpdateRecord delFooCNAME qZone tblFooCNAME).2 = dom tblFooCNAME.
Proof.
  destruct (@update_key_sets miekg tblFooCNAME delFooCNAME qZone) as [Hsub Hsup].
  apply set_eq. intros k. split; [apply Hsub|apply Hsup]; done.
Defined.

Lemma cname_key_outlives_witness :
  let m' := (UpdateRecord delFooCNAME qZone tblFooCNAME).2 in
  m' = tblEmptied ∧
  UpdateRecord fooA qZone m' = (inl errCNAMERecordIsExist, m').
Proof.
  split; [vm_compute; reflexivity|].
  apply (@cname_key_outlives_its_records miekg tblFooCNAME delFooCNAME fooA
           qZone "com.example.foo_CNAME"); done.
Defined.

Lemma update_errors_witness :
  IsDomainName (Name (Hdr fooCNAME)) = true ∧
  ConflictExists errRecordsIsExist.
Proof.
  destruct (@update_errors miekg fooCNAME qZone tblFooCNAME tblFooCNAME
              errRecordsIsExist) as (_ & Hv & [[_ Hc]|(Hn & _)]).
  - vm_compute. reflexivity.
  - by split.
  - discriminate Hn.
Defined.

Lemma batch_stops_witness :
  ∃ pre r post,
    [fooA; barA; fooCNAME] = (pre ++ r :: post)%list ∧
    updateNs pre qZone ∅ = (inr tt, tblFooBar) ∧
    UpdateRecord r qZone tblFooBar = (inl errRecordsIsExist, tblFooBar).
Proof.
  apply (@batch_stops_at_first_error miekg [fooA; barA; fooCNAME] qZone ∅
           tblFooBar errRecordsIsExist).
  vm_compute. reflexivity.
Defined.

Lemma add_twice_witness :
  UpdateRecord fooA qZone (UpdateRecord fooA qZone ∅).2 =
    UpdateRecord fooA qZone ∅.
Proof.
  apply (@add_twice miekg ∅ fooA qZone); [reflexivity|done|].
  vm_compute. discriminate.
Defined.

Lemma added_record_witness :
  rrString fooA ∈ (UpdateRecord fooA qZone tblWww).2 !!! "com.example.foo_A".
Proof.
  apply (@added_record_is_stored miekg tblWww fooA qZone "com.example.foo_A");
    reflexivity.
Defined.

Lemma lookup_result_witness :
  getRecord (map_to_list tblFoo).*1 tblFoo "Foo.example.com." TypeA =
    inr [fooA; fooA2].
Proof.
  destruct (@lookup_result miekg (map_to_list tblFoo).*1 tblFoo
              "Foo.example.com." TypeA [rrString fooA; rrString fooA2]
              eq_refl) as [Hall _]; [done|].
  apply (Hall [fooA; fooA2]). repeat constructor.
Defined.

Lemma lookup_order_witness :
  ∃ l2,
    getRecord ["com.example.www_A"; "com.example.foo_AAAA";
               "com.example.foo_A"] tblMixed "foo.example.com." TypeANY =
      inr l2 ∧
    [fooA; fooA2; fooAAAA] ≡ₚ l2.
Proof.
  apply (@lookup_order_irrelevant miekg
           ["com.example.foo_A"; "com.example.foo_AAAA"; "com.example.www_A"]).
  - exact (Permutation_rev
             ["com.example.foo_A"; "com.example.foo_AAAA";
              "com.example.www_A"]).
  - vm_compute. reflexivity.
Defined.

Lemma chase_only_appends_witness :
  extendsReply qA SetReply
    (mkMsg RcodeSuccess false [Some aliasAB; Some hostB] []).
Proof.
  apply (@chase_only_appends miekg (envOf tblChase) zone0 tblChase qA 0 1 1
           "a.example.com." TypeCNAME).
  vm_compute. reflexivity.
Defined.

Lemma update_gate_witness :
  (∃ m, HandleRequest (envOf ∅) 0 (heapOf ∅) zoneCIDR (outsideUpdate [fooA]) =
          Some (heapOf ∅, zoneCIDR, m) ∧
        Rcode m = RcodeRefused ∧ Answer m = []) ∧
  HandleRequest (envOf ∅) 0 (heapOf ∅) zone0 (unsignedUpdate [fooA]) =
    Some (heapOf ∅, zone0, mkMsg RcodeNotAuth false [] []).
Proof.
  split.
  - apply (@update_gate miekg (envOf ∅) 0 (heapOf ∅) zoneCIDR
             (outsideUpdate [fooA])); [reflexivity|done|reflexivity].
  - apply (@update_gate miekg (envOf ∅) 0 (heapOf ∅) zone0
             (unsignedUpdate [fooA])); [reflexivity|by left|reflexivity].
Defined.

Lemma update_installs_witness :
  ∃ h' l,
    HandleRequest (envOf ∅) 0 (heapOf ∅) zone0 (update [fooA; barA]) =
      Some (h',
            mkZone "example.com." "ns.example.com." "192.0.2.1" "zone.db"
                   1700000100 l "",
            signed (envOf ∅) SetReply) ∧
    (l ∉ dom (heapOf ∅)) ∧ l ≠ 1%positive ∧
    deref h' l = tblFooBar ∧ deref h' 1%positive = tblFooBar ∧
    ∀ l', l' ≠ l → l' ≠ 1%positive → h' !! l' = heapOf ∅ !! l'.
Proof.
  apply (@update_installs_result miekg (envOf ∅) 0 (heapOf ∅) zone0
           (update [fooA; barA]) tsigKey tblFooBar); try reflexivity.
  by left.
Defined.

Lemma update_write_failure_witness :
  HandleRequest (envNoCreate ∅) 0 (heapOf ∅) zone0 (update [fooA; barA]) =
    Some (<[1%positive := tblFooBar]> (heapOf ∅), zone0,
          signed (envNoCreate ∅) (mkMsg RcodeRefused false [] [])).
Proof.
  destruct (@update_write_failure miekg (envNoCreate ∅) 0 (heapOf ∅) zone0
              (update [fooA; barA]) tsigKey tblFooBar eq_refl
              (or_introl eq_refl) eq_refl) as [Hfail _].
  - vm_compute. reflexivity.
  - exact (Hfail eq_refl).
Defined.

Lemma axfr_unrestorable_witness :
  HandleRequest (envOf tblBroken) 0 (heapOf tblBroken) zone0
                (query qAXFR true) =
    Some (heapOf tblBroken, zone0,
          signed (envOf tblBroken) (mkMsg RcodeSuccess true [] [])).
Proof.
  apply (@axfr_unrestorable miekg (envOf tblBroken) 0 (heapOf tblBroken)
           zone0 (query qAXFR true) qAXFR tsigKey); try reflexivity.
  intros Hall. vm_compute in Hall. inversion Hall as [|? ? [rr Hrr] _].
  discriminate Hrr.
Defined.

Lemma database_round_trip_witness :
  ∃ h1 z1,
    New (Some 1700000000) "example.com." "ns.example.com." "zone.db"
        "192.0.2.1" "" (heapOf tblWww) = Some (h1, z1) ∧
    liveTable h1 z1 = ∅ ∧ mtime z1 = 1700000000 ∧
    (records z1 ∉ dom (heapOf tblWww)) ∧
    ReadDB (Some (Value <$> dbEntries (map_to_list tblMixed).*1 tblMixed))
           (liveTable h1 z1) = (None, tblMixed).
Proof.
  apply (database_round_trip (map_to_list tblMixed).*1 tblMixed).
  reflexivity.
Defined.

Lemma read_db_entries_witness :
  (ReadDB (Some [Value (mkDic "com.example.foo_A" ["old"]);
                 Value (mkDic "com.example.foo_A" ["new"])]) tblWww).2
    !! "com.example.foo_A" = Some ["new"] ∧
  (ReadDB (Some [Value (mkDic "com.example.foo_A" ["old"]);
                 Value (mkDic "com.example.foo_A" ["new"])]) tblWww).2
    !! "com.example.www_A" = tblWww !! "com.example.www_A".
Proof.
  destruct (read_db_entries [mkDic "com.example.foo_A" ["old"];
                             mkDic "com.example.foo_A" ["new"]] tblWww)
    as (_ & Hother & Hlast & _).
  split.
  - apply (Hlast [mkDic "com.example.foo_A" ["old"]]
                 (mkDic "com.example.foo_A" ["new"]) []); [done|].
    intros v' Hv'. by apply elem_of_nil in Hv'.
  - apply Hother. intros v Hv.
    apply elem_of_cons in Hv as [->|Hv]; [done|].
    apply elem_of_cons in Hv as [->|Hv]; [done|]. by apply elem_of_nil in Hv.
Defined.

Lemma update_messages_accepted_witness :
  MsgAcceptFunc (λ _, MsgReject) (mkDnsHeader 1 43008 1 0 1 0) = MsgAccept.
Proof.
  apply (update_messages_accepted (λ _, MsgReject)
           (mkDnsHeader 1 43008 1 0 1 0) 1 5 0); [lia|lia|lia|reflexivity].
Defined.

Lemma soa_serial_witness :
  soaRR zone0 =
    soaRR (zoneOf "ns.example.com." "192.0.2.1" "zone.db"
                  (1700000000 + 2 ^ 32) "").
Proof.
  destruct (@soa_serial miekg zone0
              (zoneOf "ns.example.com." "192.0.2.1" "zone.db"
                      (1700000000 + 2 ^ 32) "")) as (_ & _ & Hsame).
  apply Hsame; reflexivity.
Defined.

Lemma key_ignores_case_witness :
  GetKey "WWW.Example.COM" TypeA = GetKey "www.example.com" TypeA.
Proof.
  apply (@key_ignores_case miekg "WWW.Example.COM" "www.example.com" TypeA);
    reflexivity.
Defined.

Lemma batches_keep_cname_apart_witness :
  exclusive (updateQuestions [qZone] [fooCNAME; fooA; delFooCNAME; fooA] ∅).2.
Proof.
  apply (@batches_keep_cname_apart miekg typeString_plain typeString_CNAME
           ∅ [qZone] [fooCNAME; fooA; delFooCNAME; fooA]).
  apply reach_empty.
Defined.

End ConcreteMore.
